(** * A shallow embedding of the browser-driven site crawler

    The repository holds two near-duplicate crawlers:
    - [static.py]  (module [Static]):  the general variant, [crawl];
    - [dynamic.py] (module [Dynamic]): the SPA-tuned variant, [crawl_spa].

    Both keep two process-wide globals, [visited] (a set of URL strings) and
    [sitemap] (a list of record dictionaries), and walk the link graph by a
    recursive, depth-first, asynchronous function.  The browser (Playwright)
    is an external collaborator: here it is an oracle that answers, for the
    n-th page opened and its URL, what the browser calls of that visit return
    or raise; every browser call is taken to return or to raise.  Python
    strings are modelled as Rocq strings, one character per code point in
    0..255; Python exceptions are modelled by their [str(e)], and only
    exceptions that [except Exception] catches are considered.  The call
    stack is unbounded, and the progress lines printed on standard output
    are left out. *)

From Stdlib Require Import Ascii String ZArith QArith Lia.
From stdpp Require Import base tactics option list gmap sets strings.

Local Open Scope Z_scope.


(** ** Python string methods used by the crawlers *)

(** [s.startswith(p)] *)
Fixpoint startswith (s p : string) : bool :=
  match p with
  | EmptyString => true
  | String c p' =>
      match s with
      | EmptyString => false
      | String d s' => Ascii.eqb c d && startswith s' p'
      end
  end.

(** [sub in s] *)
Fixpoint contains (s sub : string) : bool :=
  startswith s sub ||
  match s with
  | EmptyString => false
  | String _ s' => contains s' sub
  end.

(** [c in s] for a one-character [c] *)
Fixpoint has_char (c : ascii) (s : string) : bool :=
  match s with
  | EmptyString => false
  | String d s' => Ascii.eqb c d || has_char c s'
  end.

(** [s.split(c)[0]]: the text before the first [c] (all of [s] without one) *)
Fixpoint before_char (c : ascii) (s : string) : string :=
  match s with
  | EmptyString => EmptyString
  | String d s' => if Ascii.eqb c d then EmptyString else String d (before_char c s')
  end.

(** [s.rstrip(c)]: every trailing [c] removed *)
Fixpoint rstrip (c : ascii) (s : string) : string :=
  match s with
  | EmptyString => EmptyString
  | String d s' =>
      match rstrip c s' with
      | EmptyString => if Ascii.eqb c d then EmptyString else String d EmptyString
      | r => String d r
      end
  end.

(** [s.replace('//', '/')]: left to right, occurrences do not overlap *)
Fixpoint replace_double_slash (s : string) : string :=
  match s with
  | EmptyString => EmptyString
  | String c t =>
      match t with
      | String d t' =>
          if Ascii.eqb c "/" && Ascii.eqb d "/"
          then String "/" (replace_double_slash t')
          else String c (replace_double_slash t)
      | EmptyString => String c EmptyString
      end
  end.

(** JavaScript's [new Set(array)] spread back into an array: duplicates are
    dropped and the first occurrence keeps its place. *)
Fixpoint js_unique_from (seen : list string) (l : list string) : list string :=
  match l with
  | [] => []
  | x :: l' =>
      if bool_decide (x ∈ seen) then js_unique_from seen l'
      else x :: js_unique_from (x :: seen) l'
  end.

Definition js_unique (l : list string) : list string := js_unique_from [] l.

(** JavaScript truthiness of an attribute value ([null] or a string), and
    the [a || b] operator on such values. *)
Definition js_truthy (a : option string) : bool :=
  match a with
  | Some (String _ _) => true
  | _ => false
  end.

Definition js_or (a b : option string) : option string :=
  if js_truthy a then a else b.

(** Python's [list(set(l))] and [for x in set(l)]: the elements of [l]
    without repetition, in an order that the language leaves open.  The
    order is a parameter [order] of the development; this is what is known
    of it. *)
Definition set_order_spec (order : list string → list string) : Prop :=
  ∀ l, NoDup (order l) ∧ ∀ x, x ∈ order l ↔ x ∈ l.

(** ** [urllib.parse.urlparse]: the scheme and the network location

    [main] reads [urlparse(start_url).scheme] and [.netloc].  This is the
    standard library's splitting for a URL that has no leading blank or
    control character, no tab or line break, and no square bracket: the
    scheme is the text before the first colon when that text starts with an
    ASCII letter and holds only letters, digits, [+], [-] and [.], in lower
    case; the network location is what follows a [//] up to the first [/],
    [?] or [#]. *)

Definition code (c : ascii) : N := N_of_ascii c.

Definition ascii_upper (c : ascii) : bool :=
  ((65 <=? code c) && (code c <=? 90))%N.

Definition ascii_alpha (c : ascii) : bool :=
  ascii_upper c || ((97 <=? code c) && (code c <=? 122))%N.

Definition ascii_alnum (c : ascii) : bool :=
  ((48 <=? code c) && (code c <=? 57))%N || ascii_alpha c.

Definition scheme_char (c : ascii) : bool :=
  ascii_alnum c || Ascii.eqb c "+" || Ascii.eqb c "-" || Ascii.eqb c ".".

Definition ascii_lower (c : ascii) : ascii :=
  if ascii_upper c then ascii_of_N (code c + 32) else c.

Fixpoint lower (s : string) : string :=
  match s with
  | EmptyString => EmptyString
  | String c s' => String (ascii_lower c) (lower s')
  end.

Fixpoint all_chars (p : ascii → bool) (s : string) : bool :=
  match s with
  | EmptyString => true
  | String c s' => p c && all_chars p s'
  end.

(** [s[n:]] *)
Fixpoint drop_chars (n : nat) (s : string) : string :=
  match n, s with
  | S n', String _ s' => drop_chars n' s'
  | _, _ => s
  end.

(** The scheme of a URL and what follows its colon; no scheme, and the whole
    URL, when the text before the first colon is not a scheme. *)
Definition split_scheme (url : string) : string * string :=
  let head := before_char ":" url in
  match head with
  | String c _ =>
      if has_char ":" url && ascii_alpha c && all_chars scheme_char head
      then (lower head, drop_chars (S (String.length head)) url)
      else (EmptyString, url)
  | EmptyString => (EmptyString, url)
  end.

(** The text before the first [/], [?] or [#]. *)
Fixpoint before_delimiter (s : string) : string :=
  match s with
  | EmptyString => EmptyString
  | String c s' =>
      if Ascii.eqb c "/" || Ascii.eqb c "?" || Ascii.eqb c "#" then EmptyString
      else String c (before_delimiter s')
  end.

Definition urlparse_scheme (url : string) : string := (split_scheme url).1.

Definition urlparse_netloc (url : string) : string :=
  let rest := (split_scheme url).2 in
  if startswith rest "//" then before_delimiter (drop_chars 2 rest)
  else EmptyString.

(** [f"{parsed_url.scheme}://{parsed_url.netloc}"], the [base_url] of both
    [main] functions. *)
Definition base_url_of (start_url : string) : string :=
  urlparse_scheme start_url +:+ "://" +:+ urlparse_netloc start_url.

(** Fuel that lets a call at [depth] finish; see [traverse_enough_fuel]. *)
Definition enough_fuel (depth max_depth : Z) : nat :=
  S (Z.to_nat (max_depth - depth + 1)).

(** ** The shared state *)

(** A sitemap entry.  The dictionaries of the two variants have different
    keys; a key that a dictionary does not have is [None] here.
    [r_timestamp] is the reading of [time.time()]. *)
Record PageRecord := {
  r_url : string;
  r_title : string;
  r_description : string;
  r_depth : Z;
  r_hasContent : option bool;
  r_error : option bool;
  r_timestamp : option Q;
}.

(** The module globals [visited] and [sitemap], and two ghost logs:
    [visits] lists, in order, the URLs for which the crawl function went
    past its guard (one page visit each), and [calls] lists the pairs
    (parent, child) of the recursive calls made by the loop over a page's
    links. *)
Record session := {
  visited : gset string;
  sitemap : list PageRecord;
  visits : list string;
  calls : list (string * string);
}.

Definition empty_session : session :=
  {| visited := ∅; sitemap := []; visits := []; calls := [] |}.

(** [visited.add(current_url)], logged as the start of a visit *)
Definition begin_visit (current_url : string) (s : session) : session :=
  {| visited := {[ current_url ]} ∪ visited s;
     sitemap := sitemap s;
     visits := visits s ++ [current_url];
     calls := calls s |}.

(** [sitemap.append(r)] *)
Definition append_record (r : PageRecord) (s : session) : session :=
  {| visited := visited s;
     sitemap := sitemap s ++ [r];
     visits := visits s;
     calls := calls s |}.

Definition log_call (parent child : string) (s : session) : session :=
  {| visited := visited s;
     sitemap := sitemap s;
     visits := visits s;
     calls := calls s ++ [(parent, child)] |}.

(** What a call of the crawl function does: it returns, or an exception
    leaves it, or the model ran out of fuel before it finished. *)
Inductive result :=
  | OutOfFuel
  | Returned (s : session)
  | Raised (e : string) (s : session).

Definition session_of (r : result) : option session :=
  match r with
  | OutOfFuel => None
  | Returned s => Some s
  | Raised _ s => Some s
  end.

(** [try: body  except Exception as e: handler] *)
Definition try_except (body : result) (handler : string → session → result) : result :=
  match body with
  | Raised e s => handler e s
  | r => r
  end.

(** [finally: await page.close()], where [close] is what [page.close()]
    raises, if anything *)
Definition finally_close (body : result) (close : option string) : result :=
  match body with
  | OutOfFuel => OutOfFuel
  | Returned s =>
      match close with
      | Some e => Raised e s
      | None => Returned s
      end
  | Raised e s =>
      match close with
      | Some e' => Raised e' s
      | None => Raised e s
      end
  end.

(** The loop both variants end their [try] block with:
<<
    for link in links:
        if link not in visited and base_url in link:
            await crawl(context, base_url, link, depth + 1, max_depth)
>>
    [call] is the recursive call; an exception that leaves it ends the loop. *)
Fixpoint for_each_link (call : string → session → result)
    (base_url parent : string) (links : list string) (s : session) : result :=
  match links with
  | [] => Returned s
  | link :: rest =>
      if bool_decide (link ∉ visited s) && contains link base_url
      then
        match call link (log_call parent link s) with
        | Returned s' => for_each_link call base_url parent rest s'
        | r => r
        end
      else for_each_link call base_url parent rest s
  end.

(** The guard that opens both crawl functions. *)
Definition skip (base_url current_url : string) (depth max_depth : Z)
    (s : session) : bool :=
  bool_decide (current_url ∈ visited s)
  || negb (startswith current_url base_url)
  || (depth >? max_depth).

(** ** The traversal the two crawl functions share

    [crawl] and [crawl_spa] differ in the records they append and in the
    links they loop over, and in nothing else.  [traverse] is that common
    skeleton; each variant is shown below to be an instance of it, so that
    the invariants of the traversal are proved once. *)

(** The [try] block up to its final loop: it raised before anything was
    appended, or it appended the success record [r] and then either raised
    or reached the loop with the list it iterates over. *)
Inductive attempt :=
  | Failed (e : string)
  | Recorded (r : PageRecord) (next : string + list string).

Section Traversal.

(** [open_error n u], [close_error n u]: what [context.new_page()] and
    [page.close()] raise at the n-th visit, of [u]. *)
Variable open_error : nat → string → option string.
Variable close_error : nat → string → option string.
(** [visit_page n base_url u depth s]: the [try] block up to its loop. *)
Variable visit_page : nat → string → string → Z → session → attempt.
(** [failure u e depth s]: the record appended by the [except] block. *)
Variable failure : string → string → Z → session → PageRecord.

Fixpoint traverse (fuel : nat) (base_url current_url : string)
    (depth max_depth : Z) (s : session) : result :=
  match fuel with
  | O => OutOfFuel
  | S fuel' =>
      if skip base_url current_url depth max_depth s then Returned s
      else
        let n := length (visits s) in
        let s := begin_visit current_url s in
        match open_error n current_url with
        | Some e => Raised e s
        | None =>
            finally_close
              (try_except
                 match visit_page n base_url current_url depth s with
                 | Failed e => Raised e s
                 | Recorded r next =>
                     let s := append_record r s in
                     match next with
                     | inl e => Raised e s
                     | inr links =>
                         for_each_link
                           (λ link s,
                              traverse fuel' base_url link (depth + 1) max_depth s)
                           base_url current_url links s
                     end
                 end
                 (λ e s, Returned
                           (append_record (failure current_url e depth s) s)))
              (close_error n current_url)
        end
  end.

End Traversal.

(** ** The general variant, [static.py] *)

Module Static.

(** What the script evaluated for [page_info] returns; its [url] key is
    never read.  The object always has both keys, so the defaults of
    [page_info.get] are not reachable. *)
Record page_info := {
  pi_title : string;
  pi_description : string;
}.

(** What the script of [extract_links_comprehensive] reads in the page:
    [el.href] of every [a[href]], and the attributes [data-href],
    [data-url], [data-link] of every element that has one of them. *)
Record document := {
  anchors : list string;
  data_attrs : list (option string * option string * option string);
}.

(** The browser's part in one run of [crawl]'s body: what
    [context.new_page()] raises, if anything; then either the exception
    raised before [page_info] was read ([goto], the waits, the scroll, the
    evaluation), or [page_info] together with either the exception raised
    by [extract_links_comprehensive] or the page it read; and what
    [page.close()] raises, if anything. *)
Record visit := {
  new_page_error : option string;
  loaded : string + page_info * (string + document);
  close_error : option string;
}.

Section Crawler.

(** Iteration order of Python sets. *)
Variable set_order : list string → list string.
(** [urljoin(base, link)], [None] when it raises. *)
Variable urljoin : string → string → option string.
(** The browser: its answers for the n-th page opened, at a URL. *)
Variable web : nat → string → visit.

(** The filter of the anchors in the evaluated script. *)
Definition keep_anchor (href : string) : bool :=
  negb (String.eqb href EmptyString || String.eqb href "#"
        || String.eqb href "javascript:void(0)")
  && negb (contains href "mailto:" || contains href "tel:")
  && negb (has_char "#" href && String.eqb (before_char "#" href) EmptyString).

(** [el.getAttribute('data-href') || el.getAttribute('data-url') ||
    el.getAttribute('data-link')], kept when truthy and starting with
    [http]. *)
Definition data_link (a : option string * option string * option string)
    : option string :=
  match js_or (js_or a.1.1 a.1.2) a.2 with
  | Some href => if js_truthy (Some href) && startswith href "http"
                 then Some href else None
  | None => None
  end.

(** The array the script returns. *)
Definition harvested (doc : document) : list string :=
  js_unique (filter (λ href, Is_true (keep_anchor href)) (anchors doc)
             ++ omap data_link (data_attrs doc)).

(** The body of the Python loop over the harvested links: [None] when
    the link is skipped. *)
Definition normalize_link (base_url link : string) : option string :=
  let resolved :=
    if startswith link "/" then urljoin base_url link
    else if startswith link "http" then Some link
    else None in
  match resolved with
  | None => None
  | Some link =>
      let link := if has_char "#" link then before_char "#" link else link in
      Some (rstrip "/" link)
  end.

Definition extract_links_comprehensive (doc : document) (base_url : string)
    : list string :=
  set_order (omap (normalize_link base_url) (harvested doc)).

Definition success_record (current_url : string) (info : page_info)
    (depth : Z) : PageRecord :=
  {| r_url := current_url;
     r_title := pi_title info;
     r_description := pi_description info;
     r_depth := depth;
     r_hasContent := None;
     r_error := None;
     r_timestamp := None |}.

Definition error_record (current_url e : string) (depth : Z) : PageRecord :=
  {| r_url := current_url;
     r_title := "Error loading page";
     r_description := e;
     r_depth := depth;
     r_hasContent := None;
     r_error := Some true;
     r_timestamp := None |}.

Fixpoint crawl (fuel : nat) (base_url current_url : string)
    (depth max_depth : Z) (s : session) : result :=
  match fuel with
  | O => OutOfFuel
  | S fuel' =>
      if skip base_url current_url depth max_depth s then Returned s
      else
        let v := web (length (visits s)) current_url in
        let s := begin_visit current_url s in
        match new_page_error v with
        | Some e => Raised e s
        | None =>
            finally_close
              (try_except
                 match loaded v with
                 | inl e => Raised e s
                 | inr (info, links) =>
                     let s := append_record
                                (success_record current_url info depth) s in
                     match links with
                     | inl e => Raised e s
                     | inr doc =>
                         for_each_link
                           (λ link s,
                              crawl fuel' base_url link (depth + 1) max_depth s)
                           base_url current_url
                           (extract_links_comprehensive doc base_url) s
                     end
                 end
                 (λ e s, Returned
                           (append_record (error_record current_url e depth) s)))
              (close_error v)
        end
  end.

(** [main], up to the call of [crawl]: the session it leaves is what is
    written out, unless an exception left [crawl]. *)
Definition main (start_url : string) (max_depth : Z) : result :=
  crawl (enough_fuel 0 max_depth) (base_url_of start_url) start_url 0
        max_depth empty_session.

End Crawler.

End Static.

(** ** The SPA-tuned variant, [dynamic.py] *)

Module Dynamic.

(** *** The regular expressions of the link extractor *)

(** The class of the two quote characters, single (39) and double (34). *)
Definition is_quote (c : ascii) : bool :=
  (code c =? 39)%N || (code c =? 34)%N.

(** JavaScript's [[a-zA-Z0-9\-_\/]] *)
Definition js_route_char (c : ascii) : bool :=
  ascii_alnum c || Ascii.eqb c "-" || Ascii.eqb c "_" || Ascii.eqb c "/".

(** JavaScript's negated class of the two quote characters *)
Definition js_unquoted_char (c : ascii) : bool := negb (is_quote c).

(** Python's [\w] on a [str], for the code points below 256: the ASCII
    letters and digits, the underscore, and the Latin-1 characters that
    [str.isalnum] accepts. *)
Definition py_word_char (c : ascii) : bool :=
  ascii_alnum c || Ascii.eqb c "_"
  || ((code c =? 170) || (code c =? 178) || (code c =? 179) || (code c =? 181)
      || (code c =? 185) || (code c =? 186)
      || (188 <=? code c) && (code c <=? 190)
      || (192 <=? code c) && (code c <=? 214)
      || (216 <=? code c) && (code c <=? 246)
      || (248 <=? code c))%N.

(** Python's [[\w\-/]] *)
Definition py_route_char (c : ascii) : bool :=
  py_word_char c || Ascii.eqb c "-" || Ascii.eqb c "/".

(** Python's [\s] on a [str], for the code points below 256 *)
Definition py_space_char (c : ascii) : bool :=
  ((9 <=? code c) && (code c <=? 13)
   || (28 <=? code c) && (code c <=? 32)
   || (code c =? 133) || (code c =? 160))%N.

(** The longest run of characters of a class at the head of [s], and the
    rest of [s]. *)
Fixpoint span (cls : ascii → bool) (s : string) : string * string :=
  match s with
  | EmptyString => (EmptyString, EmptyString)
  | String c t =>
      if cls c then (String c (span cls t).1, (span cls t).2)
      else (EmptyString, s)
  end.

(** A match, at the head of [s], of: a quote, a slash, at least [least]
    characters of the class [cls] (captured), a quote.  No class used below
    holds a quote, so the longest run is the only one a closing quote can
    follow.  The result is the captured run and the length of the match. *)
Definition quoted_path (cls : ascii → bool) (least : nat) (s : string)
    : option (string * nat) :=
  match s with
  | String q (String sl t) =>
      if is_quote q && Ascii.eqb sl "/" then
        match (span cls t).2 with
        | String q' _ =>
            if is_quote q' && (least <=? String.length (span cls t).1)%nat
            then Some ((span cls t).1, (3 + String.length (span cls t).1)%nat)
            else None
        | EmptyString => None
        end
      else None
  | _ => None
  end.

(** [s] without its prefix [p], when it has it. *)
Fixpoint strip_prefix (p s : string) : option string :=
  match p with
  | EmptyString => Some s
  | String c p' =>
      match s with
      | EmptyString => None
      | String d s' => if Ascii.eqb c d then strip_prefix p' s' else None
      end
  end.

(** A match at the head of [s] of one of the patterns of [route_patterns]:
    the literal [lit], then [\s*] when [spaces] is set, then a quote, a
    slash, the group [([\w\-/]+)] and a quote. *)
Definition py_route_match (lit : string) (spaces : bool) (s : string)
    : option (string * nat) :=
  match strip_prefix lit s with
  | None => None
  | Some t =>
      let ws := if spaces then (span py_space_char t).1 else EmptyString in
      let t := if spaces then (span py_space_char t).2 else t in
      match quoted_path py_route_char 1 t with
      | Some (g, n) => Some (g, (String.length lit + String.length ws + n)%nat)
      | None => None
      end
  end.

(** [re.findall] and JavaScript's global [match] for a pattern that matches
    no empty text: the matches from left to right, none overlapping another.
    [m] matches at the head of a text; [pending] counts the characters of the
    last match still to be passed over. *)
Fixpoint findall (m : string → option (string * nat)) (pending : nat)
    (s : string) : list string :=
  match s with
  | EmptyString => []
  | String _ t =>
      match pending with
      | S k => findall m k t
      | O =>
          match m s with
          | Some (g, n) => g :: findall m (n - 1) t
          | None => findall m 0 t
          end
      end
  end.

(** *** The page and the browser *)

Record page_info := {
  pi_title : string;
  pi_description : string;
  pi_hasContent : bool;
}.

(** What the script of [extract_spa_links] reads in the page: the [href]
    attribute of every [a[href]]; the attributes [data-href], [data-to],
    [data-url] of every element that has one of them; the [onclick]
    attribute of the navigation elements that have one; the text of every
    [script] element.  [content] is what [page.content()] returns, [None]
    when it raises. *)
Record document := {
  hrefs : list string;
  data_attrs : list (option string * option string * option string);
  onclicks : list string;
  scripts : list string;
  content : option string;
}.

(** The browser's part in one run of [crawl_spa]'s body: what
    [context.new_page()] raises, if anything; the boolean returned by
    [navigate_spa_route], which lets no exception out; then either the
    exception raised before [page_info] was read, or [page_info] together
    with either the exception raised by [extract_spa_links] or the page it
    read; and what [page.close()] raises, if anything. *)
Record visit := {
  new_page_error : option string;
  navigated : bool;
  loaded : string + page_info * (string + document);
  close_error : option string;
}.

Section Crawler.

(** Iteration order of Python sets. *)
Variable set_order : list string → list string.
(** [time.time()] when the sitemap holds n records. *)
Variable now : nat → Q.
(** The browser: its answers for the n-th page opened, at a URL. *)
Variable web : nat → string → visit.

Definition keep_href (href : string) : bool :=
  js_truthy (Some href) && negb (String.eqb href "#")
  && negb (startswith href "mailto:") && negb (startswith href "tel:").

Definition data_link (a : option string * option string * option string)
    : option string :=
  match js_or (js_or a.1.1 a.1.2) a.2 with
  | Some href => if js_truthy (Some href) then Some href else None
  | None => None
  end.

(** The first group of [onclick.match(...)]: a slash and the characters
    up to the next quote, when the handler holds a quoted text that
    starts with a slash. *)
Definition onclick_path (onclick : string) : option string :=
  if js_truthy (Some onclick) then
    match findall (quoted_path js_unquoted_char 0) 0 onclick with
    | g :: _ => Some (String "/" g)
    | [] => None
    end
  else None.

(** The route paths found in the script texts, quotes removed. *)
Definition route_paths (text : string) : list string :=
  filter (λ p, Is_true (startswith p "/" && (1 <? String.length p)%nat
                        && negb (has_char " " p)))
         (map (String "/") (findall (quoted_path js_route_char 0) 0 text)).

Definition absolute (base_url link : string) : string :=
  if startswith link "http" then link
  else if startswith link "/" then base_url +:+ link
  else base_url +:+ "/" +:+ link.

Definition keep_absolute (base_url link : string) : bool :=
  startswith link base_url
  && negb (has_char "#" link)
  && negb (has_char "?" link)
  && negb (String.eqb link base_url)
  && negb (String.eqb link (base_url +:+ "/")).

(** The array the script returns. *)
Definition harvested (doc : document) (base_url : string) : list string :=
  let links :=
    js_unique (filter (λ href, Is_true (keep_href href)) (hrefs doc)
               ++ omap data_link (data_attrs doc)
               ++ omap onclick_path (onclicks doc)
               ++ route_paths (String.concat " " (scripts doc))) in
  js_unique (filter (λ link, Is_true (keep_absolute base_url link))
                    (map (absolute base_url) links)).

Definition route_patterns : list (string * bool) :=
  [(EmptyString, false); ("path:", true); ("to=", false)].

(** The body of the Python loop over the matches of a pattern. *)
Definition potential_url (base_url m : string) : option string :=
  if negb (String.eqb m EmptyString) && negb (startswith m "http") then
    let potential := replace_double_slash (base_url +:+ "/" +:+ m) in
    if startswith potential base_url then Some potential else None
  else None.

Definition page_source_links (doc : document) (base_url : string) : list string :=
  match content doc with
  | None => []
  | Some page_content =>
      flat_map
        (λ pattern,
           omap (potential_url base_url)
                (findall (py_route_match pattern.1 pattern.2) 0 page_content))
        route_patterns
  end.

Definition extract_spa_links (doc : document) (base_url : string) : list string :=
  set_order (harvested doc base_url ++ page_source_links doc base_url).

Definition success_record (current_url : string) (info : page_info)
    (depth : Z) (s : session) : PageRecord :=
  {| r_url := current_url;
     r_title := pi_title info;
     r_description := pi_description info;
     r_depth := depth;
     r_hasContent := Some (pi_hasContent info);
     r_error := None;
     r_timestamp := Some (now (length (sitemap s))) |}.

Definition error_record (current_url e : string) (depth : Z) (s : session)
    : PageRecord :=
  {| r_url := current_url;
     r_title := "Error loading page";
     r_description := e;
     r_depth := depth;
     r_hasContent := None;
     r_error := Some true;
     r_timestamp := Some (now (length (sitemap s))) |}.

(** [[link for link in set(links) if link not in visited]] *)
Definition unique_links (links : list string) (s : session) : list string :=
  filter (λ link, link ∉ visited s) (set_order links).

Fixpoint crawl_spa (fuel : nat) (base_url current_url : string)
    (depth max_depth : Z) (s : session) : result :=
  match fuel with
  | O => OutOfFuel
  | S fuel' =>
      if skip base_url current_url depth max_depth s then Returned s
      else
        let v := web (length (visits s)) current_url in
        let s := begin_visit current_url s in
        match new_page_error v with
        | Some e => Raised e s
        | None =>
            finally_close
              (try_except
                 (if negb (navigated v)
                  then Raised "Failed to navigate to SPA route" s
                  else
                    match loaded v with
                    | inl e => Raised e s
                    | inr (info, links) =>
                        let s := append_record
                                   (success_record current_url info depth s) s in
                        match links with
                        | inl e => Raised e s
                        | inr doc =>
                            for_each_link
                              (λ link s,
                                 crawl_spa fuel' base_url link (depth + 1)
                                           max_depth s)
                              base_url current_url
                              (take 10 (unique_links
                                          (extract_spa_links doc base_url) s))
                              s
                        end
                    end)
                 (λ e s, Returned
                           (append_record (error_record current_url e depth s) s)))
              (close_error v)
        end
  end.

(** [main], up to the call of [crawl_spa]: the session it leaves is what
    is written out, unless an exception left [crawl_spa]. *)
Definition main (start_url : string) (max_depth : Z) : result :=
  crawl_spa (enough_fuel 0 max_depth) (base_url_of start_url) start_url 0
            max_depth empty_session.

End Crawler.

End Dynamic.

(** ** Each variant is an instance of the shared traversal *)

Section Instances.

Variable set_order : list string → list string.
Variable urljoin : string → string → option string.
Variable now : nat → Q.

Definition static_visit (web : nat → string → Static.visit) (n : nat)
    (base_url current_url : string) (depth : Z) (s : session) : attempt :=
  match Static.loaded (web n current_url) with
  | inl e => Failed e
  | inr (info, links) =>
      Recorded (Static.success_record current_url info depth)
        match links with
        | inl e => inl e
        | inr doc =>
            inr (Static.extract_links_comprehensive set_order urljoin doc base_url)
        end
  end.

Definition spa_visit (web : nat → string → Dynamic.visit) (n : nat)
    (base_url current_url : string) (depth : Z) (s : session) : attempt :=
  if negb (Dynamic.navigated (web n current_url))
  then Failed "Failed to navigate to SPA route"
  else
    match Dynamic.loaded (web n current_url) with
    | inl e => Failed e
    | inr (info, links) =>
        Recorded (Dynamic.success_record now current_url info depth s)
          match links with
          | inl e => inl e
          | inr doc =>
              inr (take 10 (Dynamic.unique_links set_order
                              (Dynamic.extract_spa_links set_order doc base_url) s))
          end
    end.

End Instances.

(** ** Runs of the traversal, as derivations

    [run u d s s'] says that a call of the crawl function on [u] at depth
    [d] can lead from session [s] to session [s'], whatever the browser
    answers; [loop p d links s s'] says the same of the loop over the links
    of page [p], whose calls are at depth [d].  A visit appends the records
    [before], runs the loop, and appends the records [after]. *)

Definition append_records (rs : list PageRecord) (s : session) : session :=
  {| visited := visited s;
     sitemap := sitemap s ++ rs;
     visits := visits s;
     calls := calls s |}.

Section Runs.

Variable base_url : string.
Variable max_depth : Z.
(** What is known of the records a visit appends, of the links a visit
    loops over, and of the list of those links. *)
Variable good_record : PageRecord → Prop.
Variable good_link : string → Prop.
Variable good_links : list string → Prop.

Definition own_record (u : string) (d : Z) (r : PageRecord) : Prop :=
  r_url r = u ∧ r_depth r = d ∧ good_record r.

Inductive run : string → Z → session → session → Prop :=
  | run_skip u d s :
      skip base_url u d max_depth s = true →
      run u d s s
  | run_visit u d s before links s' after :
      skip base_url u d max_depth s = false →
      Forall (own_record u d) (before ++ after) →
      Forall good_link links →
      good_links links →
      loop u (d + 1) links (append_records before (begin_visit u s)) s' →
      run u d s (append_records after s')
with loop : string → Z → list string → session → session → Prop :=
  | loop_stop p d links s :
      loop p d links s s
  | loop_skip p d link rest s s' :
      loop p d rest s s' →
      loop p d (link :: rest) s s'
  | loop_call p d link rest s s1 s' :
      link ∉ visited s →
      run link d (log_call p link s) s1 →
      loop p d rest s1 s' →
      loop p d (link :: rest) s s'.

End Runs.

Scheme run_loop_ind := Minimality for run Sort Prop
  with loop_run_ind := Minimality for loop Sort Prop.
Combined Scheme run_mutind from run_loop_ind, loop_run_ind.

(** ** Notions used to state the properties *)

(** A session only grows: nothing leaves [visited], the sitemap and the two
    logs are only appended to. *)
Definition grows (s s' : session) : Prop :=
  visited s ⊆ visited s'
  ∧ sitemap s `prefix_of` sitemap s'
  ∧ visits s `prefix_of` visits s'
  ∧ calls s `prefix_of` calls s'.

(** Every visit logged so far is of a URL in [visited], and no URL was
    visited twice. *)
Definition visits_once (s : session) : Prop :=
  NoDup (visits s) ∧ ∀ u, u ∈ visits s → u ∈ visited s.

(** The number of recursive calls made so far by the loop over the links of
    page [p]. *)
Definition calls_from (p : string) (s : session) : nat :=
  length (filter (λ c, c.1 = p) (calls s)).

(** A URL with neither a fragment nor a query string. *)
Definition plain_url (u : string) : Prop :=
  has_char "#" u = false ∧ has_char "?" u = false.

(** The keys of the records of [static.py]: no [hasContent], no
    [timestamp]; [error], when present, is [True]. *)
Definition static_keys (r : PageRecord) : Prop :=
  r_hasContent r = None ∧ r_timestamp r = None
  ∧ (r_error r = None ∨ r_error r = Some true).

(** The keys of the records of [dynamic.py]: a [timestamp] always; then
    either [hasContent] and no [error], or [error], which is [True], and no
    [hasContent]. *)
Definition spa_keys (r : PageRecord) : Prop :=
  is_Some (r_timestamp r)
  ∧ ((r_error r = None ∧ is_Some (r_hasContent r))
     ∨ (r_error r = Some true ∧ r_hasContent r = None)).

(** ** Small sites, to run the crawlers on *)

(** One admissible iteration order of Python sets: that of the last
    occurrences. *)
Definition example_order : list string → list string := remove_dups.

(** [urljoin] of an origin and an absolute path. *)
Definition example_urljoin (base link : string) : option string :=
  Some (base +:+ link).

Definition example_now (n : nat) : Q := inject_Z (1700000000 + Z.of_nat n).

Fixpoint assoc {A} (key : string) (l : list (string * A)) : option A :=
  match l with
  | [] => None
  | (k, v) :: l' => if String.eqb k key then Some v else assoc key l'
  end.

(** A site for [static.py], given by the anchors of each of its pages; a
    page that is not listed fails to load. *)
Definition static_page (hrefs : list string) : Static.visit :=
  {| Static.new_page_error := None;
     Static.loaded :=
       inr ({| Static.pi_title := "A page"; Static.pi_description := "About it" |},
            inr {| Static.anchors := hrefs; Static.data_attrs := [] |});
     Static.close_error := None |}.

Definition static_failure (e : string) : Static.visit :=
  {| Static.new_page_error := None;
     Static.loaded := inl e;
     Static.close_error := None |}.

Definition static_site (pages : list (string * list string))
    (n : nat) (u : string) : Static.visit :=
  match assoc u pages with
  | Some hrefs => static_page hrefs
  | None => static_failure "net::ERR_NAME_NOT_RESOLVED"
  end.

(** A site for [dynamic.py], given by the [href] attributes of the anchors
    of each of its pages; a page that is not listed cannot be navigated to. *)
Definition spa_page (hrefs : list string) : Dynamic.visit :=
  {| Dynamic.new_page_error := None;
     Dynamic.navigated := true;
     Dynamic.loaded :=
       inr ({| Dynamic.pi_title := "A page";
               Dynamic.pi_description := "About it";
               Dynamic.pi_hasContent := true |},
            inr {| Dynamic.hrefs := hrefs; Dynamic.data_attrs := [];
                   Dynamic.onclicks := []; Dynamic.scripts := [];
                   Dynamic.content := None |});
     Dynamic.close_error := None |}.

Definition spa_failure : Dynamic.visit :=
  {| Dynamic.new_page_error := None;
     Dynamic.navigated := false;
     Dynamic.loaded := inl EmptyString;
     Dynamic.close_error := None |}.

Definition spa_site (pages : list (string * list string))
    (n : nat) (u : string) : Dynamic.visit :=
  match assoc u pages with
  | Some hrefs => spa_page hrefs
  | None => spa_failure
  end.

(** The site of the specification's example: the home page links to
    [/about], to [/about#team] and to another host; [/about] links back. *)
Definition example_static_site : nat → string → Static.visit :=
  static_site
    [("https://example.com/",
      ["https://example.com/about"; "https://example.com/about#team";
       "https://other.com/x"]);
     ("https://example.com/about", ["https://example.com/"])].

Definition example_spa_site : nat → string → Dynamic.visit :=
  spa_site
    [("https://example.com/", ["/about"; "/about#team"; "https://other.com/x"; "/gone"]);
     ("https://example.com/about", ["/"])].

(** A site whose home page links to a host that only starts like its own. *)
Definition lookalike_site : nat → string → Static.visit :=
  static_site
    [("https://example.com/", ["https://example.com.evil.org/x"]);
     ("https://example.com.evil.org/x", [])].

(** A site whose home page links to eleven pages. *)
Definition wide_site : nat → string → Static.visit :=
  static_site
    [("https://example.com/",
      ["https://example.com/p01"; "https://example.com/p02";
       "https://example.com/p03"; "https://example.com/p04";
       "https://example.com/p05"; "https://example.com/p06";
       "https://example.com/p07"; "https://example.com/p08";
       "https://example.com/p09"; "https://example.com/p10";
       "https://example.com/p11"])].

(** A site whose home page links to [/about] with and without a final
    slash, and one whose home page links to [/about] by a fragment only. *)
Definition slash_site : nat → string → Dynamic.visit :=
  spa_site
    [("https://example.com/", ["/about"; "/about/"]);
     ("https://example.com/about", []);
     ("https://example.com/about/", [])].

Definition fragment_site : nat → string → Dynamic.visit :=
  spa_site
    [("https://example.com/", ["/about#team"]);
     ("https://example.com/about", [])].

(** Sites whose home page yields its title and description, after which
    the script that reads its links raises. *)
Definition half_loaded_static_site (n : nat) (u : string) : Static.visit :=
  {| Static.new_page_error := None;
     Static.loaded :=
       inr ({| Static.pi_title := "Home"; Static.pi_description := "Welcome" |},
            inl "Execution context was destroyed");
     Static.close_error := None |}.

Definition half_loaded_spa_site (n : nat) (u : string) : Dynamic.visit :=
  {| Dynamic.new_page_error := None;
     Dynamic.navigated := true;
     Dynamic.loaded :=
       inr ({| Dynamic.pi_title := "Home"; Dynamic.pi_description := "Welcome";
               Dynamic.pi_hasContent := true |},
            inl "Execution context was destroyed");
     Dynamic.close_error := None |}.

(** A page with one anchor and nothing else. *)
Definition one_anchor (href : string) : Dynamic.document :=
  {| Dynamic.hrefs := [href]; Dynamic.data_attrs := [];
     Dynamic.onclicks := []; Dynamic.scripts := [];
     Dynamic.content := None |}.

(** The session of a crawl of the example site once the home page has its
    success record, and a page with a few links of each kind. *)
Definition home_recorded : session :=
  append_record
    (Static.success_record "https://example.com/"
       {| Static.pi_title := "A page"; Static.pi_description := "About it" |} 0)
    (begin_visit "https://example.com/" empty_session).

Definition example_document : Static.document :=
  {| Static.anchors :=
       ["https://example.com/about"; "https://example.com/about#team";
        "https://example.com/about/"; "https://example.com/search?q=a";
        "mailto:someone@example.com"; "https://example.com/#top"];
     Static.data_attrs := [(None, Some "https://example.com/docs/", None)] |}.

Definition example_spa_document : Dynamic.document :=
  {| Dynamic.hrefs := ["/about"; "/about#team"; "/search?q=a"; "contact"];
     Dynamic.data_attrs := [(None, Some "/pricing", None)];
     Dynamic.onclicks := ["go('/signup')"];
     Dynamic.scripts := ["routes = ['/blog', '/blog/first-post']"];
     Dynamic.content := Some "<a href='/about'>About</a>" |}.

(** ** The claims of the specification that the code does not meet, in the
    specification's words *)

(** Scope containment: the scheme and the host of a recorded URL are those
    of the start URL. *)
Definition same_origin (start_url u : string) : Prop :=
  urlparse_scheme u = urlparse_scheme start_url
  ∧ urlparse_netloc u = urlparse_netloc start_url.

(** The canonical form of a URL: fragment stripped, trailing slash
    stripped. *)
Definition canonical_url (u : string) : string :=
  rstrip "/" (before_char "#" u).

(** The record schema: a depth of 0 or more, a timestamp on every record,
    [hasContent] on success records and on no other, [error] on error
    records only. *)
Definition claimed_schema (r : PageRecord) : Prop :=
  0 ≤ r_depth r
  ∧ is_Some (r_timestamp r)
  ∧ (is_Some (r_hasContent r) ↔ r_error r = None).

(** The summary of a sitemap: URL, depth and [error] key of each record. *)
Definition summary (res : result) : option (list (string * Z * option bool)) :=
  option_map (λ s, map (λ r, (r_url r, r_depth r, r_error r)) (sitemap s))
             (session_of res).

(** ** The rest of the two programs *)

(** *** The summary that both [main] functions print *)

(** [p.get('error', False)] and [p.get('hasContent', False)] *)
Definition is_error (p : PageRecord) : bool := default false (r_error p).

Definition has_content (p : PageRecord) : bool := default false (r_hasContent p).

(** [[p for p in sitemap if not p.get('error', False)]] *)
Definition successful_pages (sitemap : list PageRecord) : list PageRecord :=
  filter (λ p, is_error p = false) sitemap.

(** [[p for p in sitemap if p.get('error', False)]] *)
Definition error_pages (sitemap : list PageRecord) : list PageRecord :=
  filter (λ p, is_error p = true) sitemap.

(** [[p for p in successful_pages if p.get('hasContent', False)]], in
    [dynamic.py] only *)
Definition pages_with_content (sitemap : list PageRecord) : list PageRecord :=
  filter (λ p, has_content p = true) (successful_pages sitemap).

(** The pages listed at the end, [successful_pages[:10]], and the number
    printed after them when there are more than ten. *)
Definition listed_pages (sitemap : list PageRecord) : list PageRecord :=
  take 10 (successful_pages sitemap).

Definition more_pages (sitemap : list PageRecord) : option nat :=
  if (10 <? length (successful_pages sitemap))%nat
  then Some (length (successful_pages sitemap) - 10)%nat
  else None.

(** The number of records of a session that are for the URL [u], success
    records ([failed] unset) or error records ([failed] set). *)
Definition records_of (u : string) (failed : bool) (s : session) : nat :=
  length (filter (λ p, r_url p = u ∧ is_error p = failed) (sitemap s)).

(** What a call of the crawl function does to these numbers, from session
    [s] to session [s']: they change for no URL that was visited before or
    is not visited after, none grows by more than one, and, when [opens]
    holds, a URL visited by the call gets a record. *)
Definition tallied (opens : Prop) (s s' : session) : Prop :=
  visited s ⊆ visited s'
  ∧ ∀ q,
      (∀ failed,
         (q ∈ visited s ∨ q ∉ visited s' →
          records_of q failed s' = records_of q failed s)
         ∧ (records_of q failed s' ≤ records_of q failed s + 1)%nat)
      ∧ (opens → q ∉ visited s → q ∈ visited s' →
         (records_of q false s + records_of q true s
          < records_of q false s' + records_of q true s')%nat).

(** *** [wait_for_dynamic_content] of [static.py] *)

(** How the wait ends: the link count was stable ([break]), the time ran
    out (the [while] condition failed), or the evaluation of the link count
    raised; each with the number of samples taken before.  [StillWaiting]
    is the model running out of fuel. *)
Inductive settled :=
  | Stable (samples : nat)
  | WaitedOut (samples : nat)
  | EvaluateRaised (e : string) (samples : nat)
  | StillWaiting.

(** The [while] loop, at its iteration [i].  [clock k] is the k-th reading
    of [time.time()] in the function ([clock 0] is [start_time]);
    [link_count i] is what the i-th evaluation of the number of anchors
    returns or raises.  What [wait_for_load_state] raises is swallowed, and
    [asyncio.sleep(1)] returns. *)
Fixpoint wait_loop (fuel : nat) (clock : nat → Q) (link_count : nat → string + nat)
    (max_wait start_time : Q) (i previous_link_count stable_count : nat)
    : settled :=
  match fuel with
  | O => StillWaiting
  | S fuel' =>
      if negb (Qle_bool max_wait (clock (S i) - start_time)%Q) then
        match link_count i with
        | inl e => EvaluateRaised e i
        | inr current_link_count =>
            if (current_link_count =? previous_link_count)%nat then
              if (3 <=? S stable_count)%nat then Stable (S i)
              else wait_loop fuel' clock link_count max_wait start_time (S i)
                     previous_link_count (S stable_count)
            else wait_loop fuel' clock link_count max_wait start_time (S i)
                   current_link_count 0%nat
        end
      else WaitedOut i
  end.

Definition wait_for_dynamic_content (fuel : nat) (clock : nat → Q)
    (link_count : nat → string + nat) (max_wait : Q) : settled :=
  wait_loop fuel clock link_count max_wait (clock 0%nat) 0%nat 0%nat 0%nat.

(** *** [navigate_spa_route] of [dynamic.py] *)

(** The browser's part in one call: [page.url]; what [page.goto] raises, if
    anything; the [pathname] of the target URL; and either the exception
    raised by the script that looks for a link to click, or the attributes
    [href], [data-href], [data-to] of the elements it goes through, in
    order.  [wait_for_spa_content] swallows what its waits raise. *)
Record navigation := {
  page_url : string;
  goto_error : option string;
  target_path : string;
  candidates : string + list (option string * option string * option string);
}.

Inductive browser_call :=
  | Goto
  | FindAndClick
  | WaitForSpaContent.

(** The test of the script on one element: [href && (href === targetPath
    || href === targetUrl)], where [href] is the first truthy one of the
    three attributes. *)
Definition clicks (target_path target_url : string)
    (el : option string * option string * option string) : bool :=
  match js_or (js_or el.1.1 el.1.2) el.2 with
  | Some href =>
      js_truthy (Some href)
      && (String.eqb href target_path || String.eqb href target_url)
  | None => false
  end.

(** The boolean returned, and the browser calls made, in order. *)
Definition navigate_spa_route (nav : navigation) (url : string)
    : bool * list browser_call :=
  let current_url := rstrip "/" (page_url nav) in
  let target_url := rstrip "/" url in
  if String.eqb current_url target_url then (true, [])
  else
    match goto_error nav with
    | None => (true, [Goto; WaitForSpaContent])
    | Some _ =>
        match candidates nav with
        | inl _ => (false, [Goto; FindAndClick])
        | inr elements =>
            if existsb (clicks (target_path nav) url) elements
            then (true, [Goto; FindAndClick; WaitForSpaContent])
            else (false, [Goto; FindAndClick])
        end
    end.

(** [n] slashes. *)
Fixpoint slashes (n : nat) : string :=
  match n with
  | O => EmptyString
  | S n' => String "/" (slashes n')
  end.

(** A clock that advances by one second per reading, and a page whose
    anchors appear in two steps: none, then 5, then 12 for good. *)
Definition example_clock (n : nat) : Q := inject_Z (Z.of_nat n).

Definition loading_page (i : nat) : string + nat :=
  inr (nth i [0; 5; 12]%nat 12%nat).

Definition steady_page (c i : nat) : string + nat := inr c.

(** A call whose [page.goto] times out on a page that has no element for
    the target. *)
Definition stuck_navigation : navigation :=
  {| page_url := "https://a.test/";
     goto_error := Some "Timeout 30000ms exceeded";
     target_path := "/about";
     candidates := inr [(Some "/", None, None);
                        (None, Some "/contact", None);
                        (Some EmptyString, None, Some "/about/team")] |}.

(** * Properties *)

(** ** The traversal: fuel, and the two instances *)

Lemma for_each_link_ext (f g : string → session → result) base_url parent links s :
  (∀ link s0, f link s0 = g link s0) →
  for_each_link f base_url parent links s = for_each_link g base_url parent links s.
Proof.
  intros Hfg. revert s.
  induction links as [|link rest IH]; intros s; simpl; [done|].
  destruct (bool_decide (link ∉ visited s) && contains link base_url); [|apply IH].
  rewrite Hfg. destruct (g link (log_call parent link s)); auto.
Qed.

Lemma static_crawl_traverse set_order urljoin web fuel base_url current_url depth max_depth s :
  Static.crawl set_order urljoin web fuel base_url current_url depth max_depth s
  = traverse (λ n u, Static.new_page_error (web n u))
             (λ n u, Static.close_error (web n u))
             (static_visit set_order urljoin web)
             (λ u e d _, Static.error_record u e d)
             fuel base_url current_url depth max_depth s.
Proof.
  revert current_url depth s.
  induction fuel as [|fuel IH]; intros current_url depth s; simpl; [done|].
  destruct (skip base_url current_url depth max_depth s); [done|].
  destruct (Static.new_page_error _); [done|].
  unfold static_visit.
  destruct (Static.loaded _) as [e|[info [e|doc]]]; simpl; try done.
  f_equal. f_equal. apply for_each_link_ext. intros. apply IH.
Qed.

Lemma spa_crawl_traverse set_order now web fuel base_url current_url depth max_depth s :
  Dynamic.crawl_spa set_order now web fuel base_url current_url depth max_depth s
  = traverse (λ n u, Dynamic.new_page_error (web n u))
             (λ n u, Dynamic.close_error (web n u))
             (spa_visit set_order now web)
             (Dynamic.error_record now)
             fuel base_url current_url depth max_depth s.
Proof.
  revert current_url depth s.
  induction fuel as [|fuel IH]; intros current_url depth s; simpl; [done|].
  destruct (skip base_url current_url depth max_depth s); [done|].
  destruct (Dynamic.new_page_error _); [done|].
  unfold spa_visit.
  destruct (negb _); [done|].
  destruct (Dynamic.loaded _) as [e|[info [e|doc]]]; simpl; try done.
  f_equal. f_equal. apply for_each_link_ext. intros. apply IH.
Qed.

Lemma skip_false base_url current_url depth max_depth s :
  skip base_url current_url depth max_depth s = false →
  (current_url ∉ visited s) ∧ startswith current_url base_url = true
  ∧ (depth ≤ max_depth)%Z.
Proof.
  unfold skip. intros H.
  apply orb_false_elim in H as [H Hd]. apply orb_false_elim in H as [Hv Hp].
  apply bool_decide_eq_false in Hv. apply negb_false_iff in Hp.
  split; [done|]. split; [done|]. lia.
Qed.

Lemma for_each_link_total (call : string → session → result) base_url parent links s :
  (∀ link s0, call link s0 ≠ OutOfFuel) →
  for_each_link call base_url parent links s ≠ OutOfFuel.
Proof.
  intros Hcall. revert s.
  induction links as [|link rest IH]; intros s; simpl; [done|].
  destruct (bool_decide (link ∉ visited s) && contains link base_url); [|apply IH].
  destruct (call link (log_call parent link s)) eqn:E; [by apply Hcall in E|apply IH|done].
Qed.

Lemma for_each_link_mono (f g : string → session → result) base_url parent links s res :
  (∀ link s0 r, f link s0 = r → r ≠ OutOfFuel → g link s0 = r) →
  for_each_link f base_url parent links s = res → res ≠ OutOfFuel →
  for_each_link g base_url parent links s = res.
Proof.
  intros Hfg. revert s.
  induction links as [|link rest IH]; intros s; simpl; [done|].
  destruct (bool_decide (link ∉ visited s) && contains link base_url); [|apply IH].
  destruct (f link (log_call parent link s)) eqn:E; intros Hres Hne.
  - congruence.
  - rewrite (Hfg _ _ _ E) by done. by apply IH.
  - rewrite (Hfg _ _ _ E) by done. done.
Qed.

Section TraversalFuel.

Variable open_error close_error : nat → string → option string.
Variable visit_page : nat → string → string → Z → session → attempt.
Variable failure : string → string → Z → session → PageRecord.

Local Abbreviation traverse := (traverse open_error close_error visit_page failure).

Lemma traverse_enough_fuel fuel base_url current_url depth max_depth s :
  (Z.to_nat (max_depth - depth + 1) < fuel)%nat →
  traverse fuel base_url current_url depth max_depth s ≠ OutOfFuel.
Proof.
  revert current_url depth s.
  induction fuel as [|fuel IH]; intros current_url depth s Hfuel; [lia|].
  simpl. destruct (skip _ _ _ _ _) eqn:Hskip; [done|].
  apply skip_false in Hskip as (_ & _ & Hd).
  destruct (open_error _ _); [done|].
  assert (∀ link s0, traverse fuel base_url link (depth + 1) max_depth s0 ≠ OutOfFuel)
    as Hcall by (intros; apply IH; lia).
  destruct (visit_page _ _ _ _ _) as [e|r [e|links]]; simpl;
    try (destruct (close_error _ _); done).
  pose proof (for_each_link_total _ base_url current_url links
                (append_record r (begin_visit current_url s)) Hcall) as Hloop.
  destruct (for_each_link _ _ _ _ _); [done| |];
    simpl; destruct (close_error _ _); done.
Qed.

Lemma traverse_fuel_mono fuel fuel' base_url current_url depth max_depth s res :
  traverse fuel base_url current_url depth max_depth s = res →
  res ≠ OutOfFuel → (fuel ≤ fuel')%nat →
  traverse fuel' base_url current_url depth max_depth s = res.
Proof.
  revert fuel' current_url depth s res.
  induction fuel as [|fuel IH]; intros fuel' current_url depth s res; [simpl; congruence|].
  intros Hres Hne Hle. destruct fuel' as [|fuel']; [lia|].
  simpl in *. destruct (skip _ _ _ _ _); [done|].
  destruct (open_error _ _); [done|].
  destruct (visit_page _ _ _ _ _) as [e|r [e|links]]; try done.
  destruct (for_each_link (λ link s0, traverse fuel _ _ _ _ s0) _ _ _ _) eqn:E.
  - simpl in Hres. congruence.
  - erewrite for_each_link_mono; [exact Hres| |exact E|done].
    intros. apply IH; [done..|lia].
  - erewrite for_each_link_mono; [exact Hres| |exact E|done].
    intros. apply IH; [done..|lia].
Qed.

End TraversalFuel.

(** ** Every call of the traversal is a run *)

Lemma append_record_records r s : append_record r s = append_records [r] s.
Proof. done. Qed.

Lemma append_records_nil s : append_records [] s = s.
Proof. destruct s. unfold append_records. simpl. by rewrite app_nil_r. Qed.

Section Adequacy.

Variable open_error close_error : nat → string → option string.
Variable visit_page : nat → string → string → Z → session → attempt.
Variable failure : string → string → Z → session → PageRecord.
Variable base_url : string.
Variable max_depth : Z.
Variable good_record : PageRecord → Prop.
Variable good_link : string → Prop.
Variable good_links : list string → Prop.

Hypothesis good_nil : good_links [].
Hypothesis visit_page_good : ∀ n u d s r next,
  visit_page n base_url u d s = Recorded r next →
  own_record good_record u d r
  ∧ ∀ links, next = inr links → Forall good_link links ∧ good_links links.
Hypothesis failure_good : ∀ u e d s,
  own_record good_record u d (failure u e d s).

Local Abbreviation traverse :=
  (traverse open_error close_error visit_page failure).
Local Abbreviation run := (run base_url max_depth good_record good_link good_links).
Local Abbreviation loop := (loop base_url max_depth good_record good_link good_links).

Lemma for_each_link_loop (call : string → session → result) parent d links s res s' :
  (∀ link s0 r s1, call link s0 = r → session_of r = Some s1 → run link d s0 s1) →
  for_each_link call base_url parent links s = res →
  session_of res = Some s' →
  loop parent d links s s'.
Proof.
  intros Hcall. revert s.
  induction links as [|link rest IH]; intros s; simpl.
  - intros <- [= <-]. constructor.
  - destruct (bool_decide (link ∉ visited s) && contains link base_url) eqn:Hgo.
    + apply andb_true_iff in Hgo as [Hnew _]. apply bool_decide_eq_true in Hnew.
      destruct (call link (log_call parent link s)) as [|s1|e s1] eqn:E.
      * intros <- [=].
      * intros Hres Hs'. eapply loop_call; [done| |by eapply IH].
        by eapply Hcall.
      * intros <- [= <-]. eapply loop_call; [done| |apply loop_stop].
        by eapply Hcall.
    + intros Hres Hs'. apply loop_skip. by eapply IH.
Qed.

Lemma finally_close_session body close s' :
  session_of (finally_close body close) = Some s' → session_of body = Some s'.
Proof. destruct body, close; simpl; done. Qed.

Lemma traverse_run fuel current_url depth s res s' :
  traverse fuel base_url current_url depth max_depth s = res →
  session_of res = Some s' →
  run current_url depth s s'.
Proof.
  revert current_url depth s res s'.
  induction fuel as [|fuel IH]; intros u d s res s'; simpl; [by intros <-|].
  destruct (skip base_url u d max_depth s) eqn:Hskip.
  { intros <- [= <-]. by apply run_skip. }
  destruct (open_error _ _) as [e|].
  { intros <- [= <-].
    rewrite <-(append_records_nil (begin_visit u s)) at 1.
    eapply run_visit with (before := []) (links := []) (after := []); [done|constructor|constructor|done|].
    rewrite append_records_nil. apply loop_stop. }
  intros <- Hs'. apply finally_close_session in Hs'.
  destruct (visit_page _ _ _ _ _) as [e|r next] eqn:Hvisit; simpl in Hs'.
  { injection Hs' as <-. rewrite append_record_records.
    eapply run_visit with (before := []) (links := []) (after := [_]); [done| |constructor|done|].
    - simpl. constructor; [apply failure_good|constructor].
    - rewrite append_records_nil. apply loop_stop. }
  destruct (visit_page_good _ _ _ _ _ _ Hvisit) as [Hr Hnext].
  destruct next as [e|links]; simpl in Hs'.
  { injection Hs' as <-. rewrite !append_record_records.
    eapply run_visit with (before := [r]) (links := []) (after := [_]); [done| |constructor|done|].
    - simpl. constructor; [exact Hr|]. constructor; [apply failure_good|constructor].
    - apply loop_stop. }
  destruct (Hnext links eq_refl) as [Hlinks Hbound].
  destruct (for_each_link _ _ _ _ _) as [|s1|e s1] eqn:Hloop; simpl in Hs'; [done| |].
  - injection Hs' as <-. rewrite <-(append_records_nil s1).
    eapply run_visit with (before := [r]) (links := links) (after := []); [done| |done|done|].
    + simpl. constructor; [exact Hr|constructor].
    + eapply for_each_link_loop; [|exact Hloop|done].
      intros link s0 r0 s2 Hr0 Hs2. eapply IH; [exact Hr0|done].
  - injection Hs' as <-. rewrite append_record_records.
    eapply run_visit with (before := [r]) (links := links) (after := [_]); [done| |done|done|].
    + simpl. constructor; [exact Hr|]. constructor; [apply failure_good|constructor].
    + eapply for_each_link_loop; [|exact Hloop|done].
      intros link s0 r0 s2 Hr0 Hs2. eapply IH; [exact Hr0|done].
Qed.

End Adequacy.

(** ** What every run preserves *)

#[local] Set Warnings "-clear-no-such-hyp".

Lemma grows_refl s : grows s s.
Proof. by repeat split. Qed.

Lemma grows_trans s1 s2 s3 : grows s1 s2 → grows s2 s3 → grows s1 s3.
Proof.
  intros (?&?&?&?) (?&?&?&?). repeat split; by etrans.
Qed.

Lemma grows_begin_visit u s : grows s (begin_visit u s).
Proof.
  repeat split; simpl; try done; [set_solver|by apply prefix_app_r].
Qed.

Lemma grows_append_records rs s : grows s (append_records rs s).
Proof. repeat split; simpl; try done. by apply prefix_app_r. Qed.

Lemma grows_log_call p c s : grows s (log_call p c s).
Proof. repeat split; simpl; try done. by apply prefix_app_r. Qed.

Section RunProperties.

Variable base_url : string.
Variable max_depth : Z.
Variable good_record : PageRecord → Prop.
Variable good_link : string → Prop.
Variable good_links : list string → Prop.

Local Abbreviation run := (run base_url max_depth good_record good_link good_links).
Local Abbreviation loop := (loop base_url max_depth good_record good_link good_links).

Lemma run_loop_grows :
  (∀ u d s s', run u d s s' → grows s s')
  ∧ (∀ p d links s s', loop p d links s s' → grows s s').
Proof.
  apply run_mutind.
  - intros. apply grows_refl.
  - intros u d s before links s' after _ _ _ _ _ IH.
    eapply grows_trans; [apply grows_begin_visit|].
    eapply grows_trans; [apply (grows_append_records before)|].
    eapply grows_trans; [exact IH|apply grows_append_records].
  - intros. apply grows_refl.
  - done.
  - intros p d link rest s s1 s' _ _ IH1 _ IH2.
    eapply grows_trans; [apply (grows_log_call p link)|].
    by eapply grows_trans.
Qed.

Lemma run_grows u d s s' : run u d s s' → grows s s'.
Proof. apply run_loop_grows. Qed.

Lemma loop_grows p d links s s' : loop p d links s s' → grows s s'.
Proof. apply run_loop_grows. Qed.

Lemma visits_once_begin_visit u s :
  u ∉ visited s → visits_once s → visits_once (begin_visit u s).
Proof.
  intros Hu [Hnd Hin]. split; simpl.
  - apply NoDup_app. split; [done|]. split; [|apply NoDup_singleton].
    intros v Hv ->%list_elem_of_singleton. by apply Hu, Hin.
  - intros v [Hv| ->%list_elem_of_singleton]%elem_of_app; [|set_solver].
    apply Hin in Hv. set_solver.
Qed.

Lemma run_loop_visits :
  (∀ u d s s', run u d s s' →
     (visits_once s → visits_once s')
     ∧ ∀ v, v ∈ visits s' →
         v ∈ visits s
         ∨ ((v ∉ visited s) ∧ v ∈ visited s' ∧ startswith v base_url = true
            ∧ (v = u ∨ good_link v)))
  ∧ (∀ p d links s s', loop p d links s s' →
     Forall good_link links →
     (visits_once s → visits_once s')
     ∧ ∀ v, v ∈ visits s' →
         v ∈ visits s
         ∨ ((v ∉ visited s) ∧ v ∈ visited s' ∧ startswith v base_url = true
            ∧ good_link v)).
Proof.
  apply run_mutind.
  - intros u d s _. split; [done|]. intros v Hv. by left.
  - intros u d s before links s' after Hskip _ Hlinks _ Hloop IH.
    apply skip_false in Hskip as (Hu & Hpre & _).
    destruct (IH Hlinks) as [IHonce IHin].
    destruct (loop_grows _ _ _ _ _ Hloop) as (Hsub & _). simpl in Hsub.
    split.
    + intros Hs. apply (visits_once_begin_visit u) in Hs; [|done].
      by apply IHonce in Hs.
    + simpl. intros v Hv. apply IHin in Hv as [Hv|(Hv1 & Hv2 & Hv3 & Hv4)]; simpl in *.
      * apply elem_of_app in Hv as [Hv| ->%list_elem_of_singleton]; [by left|].
        right. repeat split; [done|set_solver|done|by left].
      * right. repeat split; [set_solver|done|done|by right].
  - intros p d links s _. split; [done|]. intros v Hv. by left.
  - intros p d link rest s s' _ IH Hlinks. apply IH. by inversion Hlinks.
  - intros p d link rest s s1 s' Hnew Hrun IH1 Hloop IH2 Hlinks.
    inversion Hlinks as [|?? Hlink Hrest]; subst.
    destruct IH1 as [IH1once IH1in]. destruct (IH2 Hrest) as [IH2once IH2in].
    destruct (run_grows _ _ _ _ Hrun) as (Hsub1 & _).
    destruct (loop_grows _ _ _ _ _ Hloop) as (Hsub2 & _). simpl in Hsub1.
    split.
    + intros Hs. apply IH2once, IH1once. exact Hs.
    + intros v Hv. apply IH2in in Hv as [Hv|(Hv1 & Hv2 & Hv3 & Hv4)].
      * apply IH1in in Hv as [Hv|(Hv1 & Hv2 & Hv3 & Hv4)]; simpl in *; [by left|].
        right. repeat split; [done|set_solver|done|].
        by destruct Hv4 as [->|].
      * right. repeat split; [set_solver|done..].
Qed.

Lemma run_loop_records :
  (∀ u d s s', run u d s s' →
     ∀ r, r ∈ sitemap s' →
       r ∈ sitemap s
       ∨ ((r_url r ∉ visited s) ∧ r_url r ∈ visited s'
          ∧ startswith (r_url r) base_url = true
          ∧ d ≤ r_depth r ≤ max_depth ∧ good_record r
          ∧ (r_url r = u → r_depth r = d)))
  ∧ (∀ p d links s s', loop p d links s s' →
     ∀ r, r ∈ sitemap s' →
       r ∈ sitemap s
       ∨ ((r_url r ∉ visited s) ∧ r_url r ∈ visited s'
          ∧ startswith (r_url r) base_url = true
          ∧ d ≤ r_depth r ≤ max_depth ∧ good_record r)).
Proof.
  apply run_mutind.
  - intros u d s _ r Hr. by left.
  - intros u d s before links s' after Hskip Hown _ _ Hloop IH r Hr.
    apply skip_false in Hskip as (Hu & Hpre & Hd).
    destruct (loop_grows _ _ _ _ _ Hloop) as (Hsub & _). simpl in Hsub.
    assert (∀ r, r ∈ before ++ after →
              (r_url r ∉ visited s) ∧ r_url r ∈ visited s'
              ∧ startswith (r_url r) base_url = true
              ∧ d ≤ r_depth r ≤ max_depth ∧ good_record r
              ∧ (r_url r = u → r_depth r = d)) as Hmine.
    { intros r0 Hr0. rewrite Forall_forall in Hown.
      destruct (Hown r0 Hr0) as (-> & -> & Hgood).
      repeat split; [done|set_solver|done|lia|done|done]. }
    simpl in Hr. apply elem_of_app in Hr as [Hr|Hr].
    + apply IH in Hr as [Hr|(Hr1 & Hr2 & Hr3 & Hr4 & Hr5)]; simpl in *.
      * apply elem_of_app in Hr as [Hr|Hr]; [by left|].
        right. apply Hmine. apply elem_of_app. by left.
      * right. repeat split; [set_solver|done|done|lia|lia|done|].
        intros Heq. rewrite Heq in Hr1. set_solver.
    + right. apply Hmine. apply elem_of_app. by right.
  - intros p d links s r Hr. by left.
  - done.
  - intros p d link rest s s1 s' Hnew Hrun IH1 Hloop IH2 r Hr.
    destruct (run_grows _ _ _ _ Hrun) as (Hsub1 & _).
    destruct (loop_grows _ _ _ _ _ Hloop) as (Hsub2 & _). simpl in Hsub1.
    apply IH2 in Hr as [Hr|(Hr1 & Hr2 & Hr3 & Hr4 & Hr5)].
    + apply IH1 in Hr as [Hr|(Hr1 & Hr2 & Hr3 & Hr4 & Hr5 & _)]; simpl in *; [by left|].
      right. repeat split; [done|set_solver|done|lia|lia|done].
    + right. repeat split; [set_solver|done|done|lia|lia|done].
Qed.

End RunProperties.

(** ** The number of recursive calls made from one page *)

Lemma calls_from_log_call q p c s :
  calls_from q (log_call p c s)
  = (calls_from q s + (if bool_decide (p = q) then 1 else 0))%nat.
Proof.
  unfold calls_from. simpl. rewrite filter_app, length_app. f_equal.
  rewrite filter_cons, filter_nil. simpl.
  destruct (decide (p = q)) as [->|Hne].
  - by rewrite bool_decide_eq_true_2.
  - by rewrite bool_decide_eq_false_2.
Qed.

Section CallBound.

Variable base_url : string.
Variable max_depth : Z.
Variable good_record : PageRecord → Prop.
Variable good_link : string → Prop.
Variable good_links : list string → Prop.
Variable cap : nat.

Hypothesis good_links_cap : ∀ links, good_links links → (length links ≤ cap)%nat.

Local Abbreviation run := (run base_url max_depth good_record good_link good_links).
Local Abbreviation loop := (loop base_url max_depth good_record good_link good_links).

Lemma run_loop_calls :
  (∀ u d s s', run u d s s' →
     ∀ q, (q ∈ visited s ∨ q ∉ visited s' → calls_from q s' = calls_from q s)
          ∧ (calls_from q s' ≤ calls_from q s + cap)%nat)
  ∧ (∀ p d links s s', loop p d links s s' →
     p ∈ visited s →
     (calls_from p s' ≤ calls_from p s + length links)%nat
     ∧ ∀ q, q ≠ p →
         (q ∈ visited s ∨ q ∉ visited s' → calls_from q s' = calls_from q s)
         ∧ (calls_from q s' ≤ calls_from q s + cap)%nat).
Proof.
  apply run_mutind.
  - intros u d s _ q. split; [done|lia].
  - intros u d s before links s' after Hskip _ _ Hbound Hloop IH q.
    apply skip_false in Hskip as (Hu & _ & _).
    apply good_links_cap in Hbound.
    destruct (loop_grows _ _ _ _ _ _ _ _ _ _ Hloop) as (Hsub & _). simpl in Hsub.
    destruct IH as [IHp IHq]; [simpl; set_solver|].
    change (calls_from q (append_records after s')) with (calls_from q s').
    change (calls_from u (append_records before (begin_visit u s)))
      with (calls_from u s) in IHp.
    destruct (decide (q = u)) as [->|Hne].
    + split; [|lia]. intros [?|Hq]; [done|]. exfalso. apply Hq. simpl. set_solver.
    + destruct (IHq q Hne) as [IHsame IHle].
      change (calls_from q (append_records before (begin_visit u s)))
        with (calls_from q s) in *.
      split; [|done]. intros [Hq|Hq]; apply IHsame; simpl in *; [set_solver|by right].
  - intros p d links s _. split; [lia|]. intros q _. split; [done|lia].
  - intros p d link rest s s' _ IH Hp. destruct (IH Hp) as [IHp IHq].
    split; [simpl; lia|done].
  - intros p d link rest s s1 s' Hnew Hrun IH1 Hloop IH2 Hp.
    destruct (run_grows _ _ _ _ _ _ _ _ _ Hrun) as (Hsub1 & _).
    destruct (loop_grows _ _ _ _ _ _ _ _ _ _ Hloop) as (Hsub2 & _). simpl in Hsub1.
    destruct IH2 as [IH2p IH2q]; [set_solver|].
    split.
    + destruct (IH1 p) as [IH1same _].
      rewrite IH1same in IH2p by (left; simpl; done).
      rewrite calls_from_log_call, bool_decide_eq_true_2 in IH2p by done.
      simpl. lia.
    + intros q Hne. destruct (IH1 q) as [IH1same IH1le].
      destruct (IH2q q Hne) as [IH2same IH2le].
      rewrite calls_from_log_call, bool_decide_eq_false_2 in IH1same, IH1le by done.
      rewrite Nat.add_0_r in IH1same, IH1le. simpl in IH1same.
      split.
      * intros [Hq|Hq].
        -- rewrite IH2same, IH1same; [done|by left|left; set_solver].
        -- rewrite IH2same, IH1same; [done|right; set_solver|by right].
      * destruct (decide (q ∈ visited s1)) as [Hq|Hq].
        -- rewrite IH2same by (by left). done.
        -- rewrite IH1same in IH2le by (by right). done.
Qed.

Lemma run_calls_bound u d s s' q :
  run u d s s' → (calls_from q s' ≤ calls_from q s + cap)%nat.
Proof. intros Hrun. by destruct (proj1 run_loop_calls _ _ _ _ Hrun q). Qed.

End CallBound.

(** ** The two crawl functions as runs *)

Lemma Forall_take_filter {A} (P : A → Prop) (Q : A → Prop) `{∀ x, Decision (Q x)}
    (n : nat) (l : list A) :
  Forall P l → Forall P (take n (filter Q l)).
Proof.
  intros Hl. apply Forall_take. rewrite Forall_forall in *.
  intros x [_ Hx]%list_elem_of_filter. by apply Hl.
Qed.

Section InstanceRuns.

Variable set_order : list string → list string.
Variable urljoin : string → string → option string.
Variable now : nat → Q.
Variable base_url : string.
Variable max_depth : Z.
Variable good_link : string → Prop.

Lemma static_crawl_run (web : nat → string → Static.visit)
    fuel current_url depth s res s' :
  (∀ doc, Forall good_link
            (Static.extract_links_comprehensive set_order urljoin doc base_url)) →
  Static.crawl set_order urljoin web fuel base_url current_url depth max_depth s = res →
  session_of res = Some s' →
  run base_url max_depth static_keys good_link (λ _, True) current_url depth s s'.
Proof.
  intros Hlinks. rewrite static_crawl_traverse. apply traverse_run; [done| |].
  - intros n u d s0 r next. unfold static_visit.
    destruct (Static.loaded _) as [e|[info [e|doc]]]; intros [= <- <-].
    + split; [|by intros links [=]].
      unfold own_record, static_keys. simpl. auto 10.
    + split; [|intros links [= <-]; split; [apply Hlinks|done]].
      unfold own_record, static_keys. simpl. auto 10.
  - intros u e d s0. unfold own_record, static_keys. simpl. auto 10.
Qed.

Lemma spa_crawl_run (web : nat → string → Dynamic.visit)
    fuel current_url depth s res s' :
  (∀ doc, Forall good_link
            (set_order (Dynamic.extract_spa_links set_order doc base_url))) →
  Dynamic.crawl_spa set_order now web fuel base_url current_url depth max_depth s = res →
  session_of res = Some s' →
  run base_url max_depth spa_keys good_link (λ links, (length links ≤ 10)%nat)
      current_url depth s s'.
Proof.
  intros Hlinks. rewrite spa_crawl_traverse. apply traverse_run; [simpl; lia| |].
  - intros n u d s0 r next. unfold spa_visit.
    destruct (negb _); [done|].
    destruct (Dynamic.loaded _) as [e|[info [e|doc]]]; intros [= <- <-].
    + split; [|by intros links [=]].
      unfold own_record, spa_keys. simpl. eauto 10.
    + split.
      * unfold own_record, spa_keys. simpl. eauto 10.
      * intros links [= <-]. split.
        -- unfold Dynamic.unique_links. apply Forall_take_filter, Hlinks.
        -- rewrite length_take. lia.
  - intros u e d s0. unfold own_record, spa_keys. simpl. eauto 10.
Qed.

End InstanceRuns.

(** ** Termination *)

Lemma enough_fuel_spec depth max_depth :
  (Z.to_nat (max_depth - depth + 1) < enough_fuel depth max_depth)%nat.
Proof. unfold enough_fuel. lia. Qed.

Lemma result_session (res : result) :
  res ≠ OutOfFuel → ∃ s', session_of res = Some s'.
Proof. destruct res; [done|by eexists..]. Qed.

Section Termination.

Variable set_order : list string → list string.
Variable urljoin : string → string → option string.
Variable now : nat → Q.
Variable static_web : nat → string → Static.visit.
Variable spa_web : nat → string → Dynamic.visit.

Lemma static_crawl_total base_url current_url depth max_depth s :
  Static.crawl set_order urljoin static_web (enough_fuel depth max_depth)
    base_url current_url depth max_depth s ≠ OutOfFuel.
Proof.
  rewrite static_crawl_traverse. apply traverse_enough_fuel, enough_fuel_spec.
Qed.

Lemma spa_crawl_total base_url current_url depth max_depth s :
  Dynamic.crawl_spa set_order now spa_web (enough_fuel depth max_depth)
    base_url current_url depth max_depth s ≠ OutOfFuel.
Proof.
  rewrite spa_crawl_traverse. apply traverse_enough_fuel, enough_fuel_spec.
Qed.

Lemma static_crawl_more_fuel k base_url current_url depth max_depth s :
  Static.crawl set_order urljoin static_web (enough_fuel depth max_depth + k)
    base_url current_url depth max_depth s
  = Static.crawl set_order urljoin static_web (enough_fuel depth max_depth)
      base_url current_url depth max_depth s.
Proof.
  rewrite !static_crawl_traverse.
  eapply traverse_fuel_mono; [done| |lia].
  apply traverse_enough_fuel, enough_fuel_spec.
Qed.

Lemma spa_crawl_more_fuel k base_url current_url depth max_depth s :
  Dynamic.crawl_spa set_order now spa_web (enough_fuel depth max_depth + k)
    base_url current_url depth max_depth s
  = Dynamic.crawl_spa set_order now spa_web (enough_fuel depth max_depth)
      base_url current_url depth max_depth s.
Proof.
  rewrite !spa_crawl_traverse.
  eapply traverse_fuel_mono; [done| |lia].
  apply traverse_enough_fuel, enough_fuel_spec.
Qed.

Lemma static_crawl_grows fuel base_url current_url depth max_depth s s' :
  session_of (Static.crawl set_order urljoin static_web fuel base_url
                current_url depth max_depth s) = Some s' →
  grows s s'.
Proof.
  intros Hs'. eapply run_grows.
  eapply (static_crawl_run _ _ _ _ (λ _, True)); [|done|exact Hs'].
  intros doc. by apply Forall_forall.
Qed.

Lemma spa_crawl_grows fuel base_url current_url depth max_depth s s' :
  session_of (Dynamic.crawl_spa set_order now spa_web fuel base_url
                current_url depth max_depth s) = Some s' →
  grows s s'.
Proof.
  intros Hs'. eapply run_grows.
  eapply (spa_crawl_run _ _ _ _ (λ _, True)); [|done|exact Hs'].
  intros doc. by apply Forall_forall.
Qed.

(** C3. Whatever the pages link to, and for every depth bound, both crawl
    functions finish: with the fuel [enough_fuel depth max_depth], which
    is the number of depths still allowed plus one, the call returns or
    raises, more fuel changes nothing, and the visited set of the session
    it leaves contains the one it started from. *)
Theorem crawl_terminates base_url current_url depth max_depth s k :
  (∃ s',
     session_of (Static.crawl set_order urljoin static_web
                   (enough_fuel depth max_depth) base_url current_url depth
                   max_depth s) = Some s'
     ∧ visited s ⊆ visited s'
     ∧ Static.crawl set_order urljoin static_web
         (enough_fuel depth max_depth + k) base_url current_url depth
         max_depth s
       = Static.crawl set_order urljoin static_web
           (enough_fuel depth max_depth) base_url current_url depth
           max_depth s)
  ∧ (∃ s',
       session_of (Dynamic.crawl_spa set_order now spa_web
                     (enough_fuel depth max_depth) base_url current_url depth
                     max_depth s) = Some s'
       ∧ visited s ⊆ visited s'
       ∧ Dynamic.crawl_spa set_order now spa_web
           (enough_fuel depth max_depth + k) base_url current_url depth
           max_depth s
         = Dynamic.crawl_spa set_order now spa_web
             (enough_fuel depth max_depth) base_url current_url depth
             max_depth s).
Proof.
  split.
  - destruct (result_session _ (static_crawl_total base_url current_url depth
                                  max_depth s)) as [s' Hs'].
    exists s'. split; [done|]. split; [|apply static_crawl_more_fuel].
    by apply static_crawl_grows in Hs' as [? _].
  - destruct (result_session _ (spa_crawl_total base_url current_url depth
                                  max_depth s)) as [s' Hs'].
    exists s'. split; [done|]. split; [|apply spa_crawl_more_fuel].
    by apply spa_crawl_grows in Hs' as [? _].
Qed.

End Termination.

(** ** Whole runs: [main] *)

Lemma visits_once_empty : visits_once empty_session.
Proof. split; [constructor|]. intros u Hu. by apply elem_of_nil in Hu. Qed.

Lemma Forall_True {A} (l : list A) : Forall (λ _, True) l.
Proof. by apply Forall_forall. Qed.

Lemma skip_visited base_url current_url depth max_depth s :
  current_url ∈ visited s → skip base_url current_url depth max_depth s = true.
Proof. intros Hin. unfold skip. by rewrite bool_decide_eq_true_2. Qed.

Section WholeRuns.

Variable set_order : list string → list string.
Variable urljoin : string → string → option string.
Variable now : nat → Q.
Variable static_web : nat → string → Static.visit.
Variable spa_web : nat → string → Dynamic.visit.

Lemma static_main_run start_url max_depth :
  ∃ s', session_of (Static.main set_order urljoin static_web start_url max_depth)
        = Some s'
        ∧ run (base_url_of start_url) max_depth static_keys (λ _, True) (λ _, True)
              start_url 0 empty_session s'.
Proof.
  unfold Static.main.
  destruct (result_session _ (static_crawl_total set_order urljoin static_web
              (base_url_of start_url) start_url 0 max_depth empty_session))
    as [s' Hs'].
  exists s'. split; [done|].
  eapply static_crawl_run; [|done|exact Hs']. intros doc. apply Forall_True.
Qed.

Lemma spa_main_run (good_link : string → Prop) start_url max_depth :
  (∀ doc, Forall good_link
            (set_order (Dynamic.extract_spa_links set_order doc
                          (base_url_of start_url)))) →
  ∃ s', session_of (Dynamic.main set_order now spa_web start_url max_depth)
        = Some s'
        ∧ run (base_url_of start_url) max_depth spa_keys good_link
              (λ links, (length links ≤ 10)%nat) start_url 0 empty_session s'.
Proof.
  intros Hlinks. unfold Dynamic.main.
  destruct (result_session _ (spa_crawl_total set_order now spa_web
              (base_url_of start_url) start_url 0 max_depth empty_session))
    as [s' Hs'].
  exists s'. split; [done|].
  eapply spa_crawl_run; [exact Hlinks|done|exact Hs'].
Qed.

(** C1. In a session where no URL was visited twice, a call of either crawl
    function leaves a session where no URL was visited twice, every visit
    being of a URL that is in the visited set; a call on a URL that is in
    the visited set returns at once and changes nothing; and a call that
    goes past its guard leaves its URL in the visited set, whatever the
    browser did.  So over a run, which starts from the empty session, the
    page visitor is invoked at most once per URL. *)
Theorem visited_at_most_once fuel base_url current_url depth max_depth s :
  visits_once s →
  (∀ s', session_of (Static.crawl set_order urljoin static_web fuel base_url
                       current_url depth max_depth s) = Some s' →
         visits_once s')
  ∧ (∀ s', session_of (Dynamic.crawl_spa set_order now spa_web fuel base_url
                         current_url depth max_depth s) = Some s' →
           visits_once s')
  ∧ (current_url ∈ visited s →
     Static.crawl set_order urljoin static_web (S fuel) base_url current_url
       depth max_depth s = Returned s
     ∧ Dynamic.crawl_spa set_order now spa_web (S fuel) base_url current_url
         depth max_depth s = Returned s)
  ∧ (skip base_url current_url depth max_depth s = false →
     (∀ s', session_of (Static.crawl set_order urljoin static_web (S fuel)
                          base_url current_url depth max_depth s) = Some s' →
            current_url ∈ visited s')
     ∧ (∀ s', session_of (Dynamic.crawl_spa set_order now spa_web (S fuel)
                            base_url current_url depth max_depth s) = Some s' →
              current_url ∈ visited s')).
Proof.
  intros Hs. split; [|split; [|split]].
  - intros s' Hs'.
    eapply (static_crawl_run _ _ _ _ (λ _, True)) in Hs'; [|intros; apply Forall_True|done].
    by apply run_loop_visits in Hs' as [Honce _]; apply Honce.
  - intros s' Hs'.
    eapply (spa_crawl_run _ _ _ _ (λ _, True)) in Hs'; [|intros; apply Forall_True|done].
    by apply run_loop_visits in Hs' as [Honce _]; apply Honce.
  - intros Hin. simpl. by rewrite skip_visited.
  - intros Hgo. split; intros s' Hs'.
    + eapply (static_crawl_run _ _ _ _ (λ _, True)) in Hs'; [|intros; apply Forall_True|done].
      inversion Hs' as [??? Hskip|??????? _ _ _ _ Hloop]; subst; [congruence|].
      apply loop_grows in Hloop as [Hsub _]. simpl in *. set_solver.
    + eapply (spa_crawl_run _ _ _ _ (λ _, True)) in Hs'; [|intros; apply Forall_True|done].
      inversion Hs' as [??? Hskip|??????? _ _ _ _ Hloop]; subst; [congruence|].
      apply loop_grows in Hloop as [Hsub _]. simpl in *. set_solver.
Qed.

(** What [run_loop_records] says of a run that starts from the empty
    session. *)
Lemma run_records_from_empty base_url max_depth good_record good_link good_links
    u d s' r :
  run base_url max_depth good_record good_link good_links u d empty_session s' →
  r ∈ sitemap s' →
  startswith (r_url r) base_url = true
  ∧ d ≤ r_depth r ≤ max_depth ∧ good_record r ∧ (r_url r = u → r_depth r = d).
Proof.
  intros Hrun Hr.
  destruct (proj1 (run_loop_records _ _ _ _ _) _ _ _ _ Hrun r Hr)
    as [Hnil|(_ & _ & ? & ? & ? & ?)]; [|done].
  by apply elem_of_nil in Hnil.
Qed.

(** C6. Both [main] functions finish, and in the sitemap they leave every
    record has a depth from 0 to [max_depth], and a record whose URL is the
    start URL has depth 0. *)
Theorem depth_bound start_url max_depth :
  (∃ s', session_of (Static.main set_order urljoin static_web start_url max_depth)
         = Some s'
         ∧ ∀ r, r ∈ sitemap s' →
             0 ≤ r_depth r ≤ max_depth ∧ (r_url r = start_url → r_depth r = 0))
  ∧ (∃ s', session_of (Dynamic.main set_order now spa_web start_url max_depth)
           = Some s'
           ∧ ∀ r, r ∈ sitemap s' →
               0 ≤ r_depth r ≤ max_depth ∧ (r_url r = start_url → r_depth r = 0)).
Proof.
  split.
  - destruct (static_main_run start_url max_depth) as (s' & Hs' & Hrun).
    exists s'. split; [done|]. intros r Hr.
    by destruct (run_records_from_empty _ _ _ _ _ _ _ _ _ Hrun Hr) as (_ & ? & _ & ?).
  - destruct (spa_main_run (λ _, True) start_url max_depth) as (s' & Hs' & Hrun);
      [intros; apply Forall_True|].
    exists s'. split; [done|]. intros r Hr.
    by destruct (run_records_from_empty _ _ _ _ _ _ _ _ _ Hrun Hr) as (_ & ? & _ & ?).
Qed.

(** C4, as amended. Both [main] functions finish, and in the sitemap they
    leave every recorded URL starts with [base_url], the text made of the
    start URL's scheme, [://] and its network location. *)
Theorem recorded_urls_start_with_base_url start_url max_depth :
  (∃ s', session_of (Static.main set_order urljoin static_web start_url max_depth)
         = Some s'
         ∧ ∀ r, r ∈ sitemap s' →
             startswith (r_url r) (base_url_of start_url) = true)
  ∧ (∃ s', session_of (Dynamic.main set_order now spa_web start_url max_depth)
           = Some s'
           ∧ ∀ r, r ∈ sitemap s' →
               startswith (r_url r) (base_url_of start_url) = true).
Proof.
  split.
  - destruct (static_main_run start_url max_depth) as (s' & Hs' & Hrun).
    exists s'. split; [done|]. intros r Hr.
    by destruct (run_records_from_empty _ _ _ _ _ _ _ _ _ Hrun Hr) as (? & _).
  - destruct (spa_main_run (λ _, True) start_url max_depth) as (s' & Hs' & Hrun);
      [intros; apply Forall_True|].
    exists s'. split; [done|]. intros r Hr.
    by destruct (run_records_from_empty _ _ _ _ _ _ _ _ _ Hrun Hr) as (? & _).
Qed.

(** C7, as amended. [main] of the SPA-tuned variant finishes, and in the
    session it leaves, the loop over the links of any one page made at most
    10 recursive calls. *)
Theorem spa_children_capped start_url max_depth :
  ∃ s', session_of (Dynamic.main set_order now spa_web start_url max_depth)
        = Some s'
        ∧ ∀ p, (calls_from p s' ≤ 10)%nat.
Proof.
  destruct (spa_main_run (λ _, True) start_url max_depth) as (s' & Hs' & Hrun);
    [intros; apply Forall_True|].
  exists s'. split; [done|]. intros p.
  eapply (run_calls_bound _ _ _ _ _ 10) with (q := p) in Hrun; [|done].
  exact Hrun.
Qed.

(** C9, as amended. Both [main] functions finish.  Every record of the
    SPA-tuned variant has a depth of 0 or more and a [timestamp], and either
    [hasContent] and no [error], or [error], set to [True], and no
    [hasContent].  Every record of the general variant has a depth of 0 or
    more, neither [timestamp] nor [hasContent], and [error], set to [True],
    or no [error]. *)
Theorem record_keys start_url max_depth :
  (∃ s', session_of (Dynamic.main set_order now spa_web start_url max_depth)
         = Some s'
         ∧ ∀ r, r ∈ sitemap s' → 0 ≤ r_depth r ∧ spa_keys r)
  ∧ (∃ s', session_of (Static.main set_order urljoin static_web start_url max_depth)
           = Some s'
           ∧ ∀ r, r ∈ sitemap s' → 0 ≤ r_depth r ∧ static_keys r).
Proof.
  split.
  - destruct (spa_main_run (λ _, True) start_url max_depth) as (s' & Hs' & Hrun);
      [intros; apply Forall_True|].
    exists s'. split; [done|]. intros r Hr.
    destruct (run_records_from_empty _ _ _ _ _ _ _ _ _ Hrun Hr) as (_ & ? & ? & _).
    split; [lia|done].
  - destruct (static_main_run start_url max_depth) as (s' & Hs' & Hrun).
    exists s'. split; [done|]. intros r Hr.
    destruct (run_records_from_empty _ _ _ _ _ _ _ _ _ Hrun Hr) as (_ & ? & ? & _).
    split; [lia|done].
Qed.

End WholeRuns.

(** ** Where the code departs from the specification *)

(** C4, counterexample. The guard compares prefixes of text: a URL on the
    host [example.com.evil.org] starts with [https://example.com], and the
    general variant records it in a crawl of [https://example.com/]. *)
Lemma scope_containment_fails :
  ∃ s r,
    session_of (Static.main example_order example_urljoin lookalike_site
                  "https://example.com/" 1) = Some s
    ∧ r ∈ sitemap s
    ∧ ¬ same_origin "https://example.com/" (r_url r).
Proof.
  eexists. exists (Static.success_record "https://example.com.evil.org/x"
                     {| Static.pi_title := "A page";
                        Static.pi_description := "About it" |} 1).
  split; [vm_compute; reflexivity|]. split.
  - apply list_elem_of_In. simpl. tauto.
  - intros [_ Hhost]. vm_compute in Hhost. discriminate.
Qed.

(** C7, counterexample. The general variant has no bound on the children
    of a page: from a home page with eleven links its loop makes eleven
    recursive calls, and twelve pages are visited. *)
Lemma static_children_not_capped :
  ∃ s,
    session_of (Static.main example_order example_urljoin wide_site
                  "https://example.com/" 1) = Some s
    ∧ calls_from "https://example.com/" s = 11%nat
    ∧ length (visits s) = 12%nat.
Proof. eexists. split; [vm_compute; reflexivity|]. by vm_compute. Qed.

(** C9, counterexample. The records of the general variant have no
    [timestamp]. *)
Lemma static_records_lack_timestamp :
  ∃ s r,
    session_of (Static.main example_order example_urljoin example_static_site
                  "https://example.com/" 1) = Some s
    ∧ r ∈ sitemap s
    ∧ ¬ claimed_schema r.
Proof.
  eexists. exists (Static.success_record "https://example.com/"
                     {| Static.pi_title := "A page";
                        Static.pi_description := "About it" |} 0).
  split; [vm_compute; reflexivity|]. split.
  - apply list_elem_of_In. simpl. tauto.
  - intros (_ & [t Ht] & _). discriminate.
Qed.

(** C5, counterexample. The SPA-tuned variant keeps a final slash and
    drops a link that has a fragment: [/about] and [/about/], which have one
    canonical form, are both visited; and [/about], linked to by
    [/about#team] only, is not visited at all. *)
Lemma canonical_forms_not_merged :
  (∃ s,
     session_of (Dynamic.main example_order example_now slash_site
                   "https://example.com/" 1) = Some s
     ∧ visits s = ["https://example.com/"; "https://example.com/about";
                   "https://example.com/about/"]
     ∧ canonical_url "https://example.com/about"
       = canonical_url "https://example.com/about/")
  ∧ (∃ s,
       session_of (Dynamic.main example_order example_now fragment_site
                     "https://example.com/" 1) = Some s
       ∧ visits s = ["https://example.com/"]
       ∧ canonical_url "https://example.com/about#team"
         = "https://example.com/about").
Proof.
  split; eexists; (split; [vm_compute; reflexivity|]); by vm_compute.
Qed.

(** C2, the defect. The success record is appended inside the [try] block
    before the links are read; when reading the links raises, the [except]
    block appends an error record for the same URL.  Both variants then hold
    two records for the one page they visited. *)
Theorem two_records_for_one_page :
  summary (Static.main example_order example_urljoin half_loaded_static_site
             "https://example.com/" 1)
  = Some [("https://example.com/", 0, None); ("https://example.com/", 0, Some true)]
  ∧ summary (Dynamic.main example_order example_now half_loaded_spa_site
               "https://example.com/" 1)
    = Some [("https://example.com/", 0, None); ("https://example.com/", 0, Some true)].
Proof. split; by vm_compute. Qed.

(** ** Error isolation *)

Lemma startswith_contains s p : startswith s p = true → contains s p = true.
Proof. intros H. destruct s; simpl in *; by rewrite H. Qed.

Lemma skip_go base_url current_url depth max_depth s :
  current_url ∉ visited s → startswith current_url base_url = true →
  depth ≤ max_depth →
  skip base_url current_url depth max_depth s = false.
Proof.
  intros Hnew Hpre Hd. unfold skip.
  rewrite bool_decide_eq_false_2, Hpre by done. simpl. lia.
Qed.

(** An exception leaves a call only when the creation or the release of
    that call's own page raises: what is raised inside the [try] block, by
    the page or by a nested call, is caught. *)
Lemma traverse_returns open_error close_error visit_page failure
    fuel base_url current_url depth max_depth s e s' :
  open_error (length (visits s)) current_url = None →
  close_error (length (visits s)) current_url = None →
  traverse open_error close_error visit_page failure fuel base_url current_url
    depth max_depth s ≠ Raised e s'.
Proof.
  intros Hopen Hclose. destruct fuel as [|fuel]; simpl; [done|].
  destruct (skip _ _ _ _ _); [done|].
  rewrite Hopen, Hclose.
  destruct (visit_page _ _ _ _ _) as [?|r [?|links]]; simpl; try done.
  by destruct (for_each_link _ _ _ _ _).
Qed.

Section ErrorIsolation.

Variable set_order : list string → list string.
Variable urljoin : string → string → option string.
Variable now : nat → Q.
Variable static_web : nat → string → Static.visit.
Variable spa_web : nat → string → Dynamic.visit.

Lemma static_failed_visit fuel base_url b depth max_depth s e :
  b ∉ visited s → startswith b base_url = true → depth ≤ max_depth →
  static_web (length (visits s)) b = static_failure e →
  Static.crawl set_order urljoin static_web (S fuel) base_url b depth max_depth s
  = Returned (append_record (Static.error_record b e depth) (begin_visit b s)).
Proof.
  intros Hnew Hpre Hd Hweb. simpl.
  rewrite skip_go by done. by rewrite Hweb.
Qed.

Lemma spa_failed_visit fuel base_url b depth max_depth s e :
  b ∉ visited s → startswith b base_url = true → depth ≤ max_depth →
  Dynamic.new_page_error (spa_web (length (visits s)) b) = None →
  Dynamic.close_error (spa_web (length (visits s)) b) = None →
  (Dynamic.navigated (spa_web (length (visits s)) b) = false
   ∧ e = "Failed to navigate to SPA route"
   ∨ Dynamic.navigated (spa_web (length (visits s)) b) = true
     ∧ Dynamic.loaded (spa_web (length (visits s)) b) = inl e) →
  Dynamic.crawl_spa set_order now spa_web (S fuel) base_url b depth max_depth s
  = Returned (append_record (Dynamic.error_record now b e depth (begin_visit b s))
                (begin_visit b s)).
Proof.
  intros Hnew Hpre Hd Hopen Hclose Hfail. simpl.
  rewrite skip_go by done. rewrite Hopen, Hclose.
  destruct Hfail as [[-> ->]|[-> ->]]; done.
Qed.

Lemma static_main_returns start_url max_depth :
  Static.new_page_error (static_web 0 start_url) = None →
  Static.close_error (static_web 0 start_url) = None →
  ∃ s', Static.main set_order urljoin static_web start_url max_depth = Returned s'.
Proof.
  intros Hopen Hclose. unfold Static.main.
  pose proof (static_crawl_total set_order urljoin static_web
                (base_url_of start_url) start_url 0 max_depth empty_session) as Htot.
  destruct (Static.crawl _ _ _ _ _ _ _ _ _) as [|s'|e s'] eqn:E; [done|by eexists|].
  rewrite static_crawl_traverse in E.
  by apply traverse_returns in E.
Qed.

Lemma spa_main_returns start_url max_depth :
  Dynamic.new_page_error (spa_web 0 start_url) = None →
  Dynamic.close_error (spa_web 0 start_url) = None →
  ∃ s', Dynamic.main set_order now spa_web start_url max_depth = Returned s'.
Proof.
  intros Hopen Hclose. unfold Dynamic.main.
  pose proof (spa_crawl_total set_order now spa_web
                (base_url_of start_url) start_url 0 max_depth empty_session) as Htot.
  destruct (Dynamic.crawl_spa _ _ _ _ _ _ _ _ _) as [|s'|e s'] eqn:E; [done|by eexists|].
  rewrite spa_crawl_traverse in E.
  by apply traverse_returns in E.
Qed.

(** C8. Let the loop over the links of page [a] reach a link [b] that is
    not visited yet and in scope, and let the visit of [b] fail: its
    navigation or the reading of its title raises (or, in the SPA-tuned
    variant, [navigate_spa_route] returns [False]).  Then the call on [b]
    returns, having appended one error record for [b] that carries the
    description of the failure and having made no recursive call; the loop goes on with the links after
    [b]; and every record present before, the success record of [a] among
    them, is still in the sitemap when the loop ends.  And [main] returns,
    whatever pages fail, as long as the creation and the release of the
    start page itself do not raise (the two calls outside the [try]
    block). *)
Theorem error_isolation fuel base_url a b rest depth max_depth s e e' start_url :
  b ∉ visited s → startswith b base_url = true → depth ≤ max_depth →
  (static_web (length (visits s)) b = static_failure e →
   let crawl := λ link s0, Static.crawl set_order urljoin static_web (S fuel)
                             base_url link depth max_depth s0 in
   let s_b := append_record (Static.error_record b e depth)
                (begin_visit b (log_call a b s)) in
   crawl b (log_call a b s) = Returned s_b
   ∧ for_each_link crawl base_url a (b :: rest) s
     = for_each_link crawl base_url a rest s_b
   ∧ ∀ s', session_of (for_each_link crawl base_url a rest s_b) = Some s' →
       sitemap s ++ [Static.error_record b e depth] `prefix_of` sitemap s')
  ∧ (Dynamic.new_page_error (spa_web (length (visits s)) b) = None →
     Dynamic.close_error (spa_web (length (visits s)) b) = None →
     (Dynamic.navigated (spa_web (length (visits s)) b) = false
      ∧ e' = "Failed to navigate to SPA route"
      ∨ Dynamic.navigated (spa_web (length (visits s)) b) = true
        ∧ Dynamic.loaded (spa_web (length (visits s)) b) = inl e') →
     let crawl := λ link s0, Dynamic.crawl_spa set_order now spa_web (S fuel)
                               base_url link depth max_depth s0 in
     let s_b := append_record
                  (Dynamic.error_record now b e' depth (begin_visit b (log_call a b s)))
                  (begin_visit b (log_call a b s)) in
     crawl b (log_call a b s) = Returned s_b
     ∧ for_each_link crawl base_url a (b :: rest) s
       = for_each_link crawl base_url a rest s_b
     ∧ ∀ s', session_of (for_each_link crawl base_url a rest s_b) = Some s' →
         sitemap s ++ [Dynamic.error_record now b e' depth
                         (begin_visit b (log_call a b s))]
         `prefix_of` sitemap s')
  ∧ (Static.new_page_error (static_web 0 start_url) = None →
     Static.close_error (static_web 0 start_url) = None →
     ∃ s', Static.main set_order urljoin static_web start_url max_depth
           = Returned s')
  ∧ (Dynamic.new_page_error (spa_web 0 start_url) = None →
     Dynamic.close_error (spa_web 0 start_url) = None →
     ∃ s', Dynamic.main set_order now spa_web start_url max_depth = Returned s').
Proof.
  intros Hnew Hpre Hd. split; [|split; [|split]].
  - intros Hweb crawl s_b.
    assert (crawl b (log_call a b s) = Returned s_b) as Hb.
    { unfold crawl, s_b. by apply static_failed_visit. }
    split; [done|]. split.
    + cbn [for_each_link]. rewrite bool_decide_eq_true_2 by done.
      rewrite startswith_contains by done. cbn [andb]. by rewrite Hb.
    + intros s' Hs'.
      eapply for_each_link_loop with (good_record := static_keys)
        (good_link := λ _, True) (good_links := λ _, True) (d := depth)
        (max_depth := max_depth) in Hs'; [| |done].
      * by apply loop_grows in Hs' as (_ & ? & _).
      * intros link s0 r s1 Hr Hs1.
        eapply static_crawl_run; [|exact Hr|exact Hs1]. intros; apply Forall_True.
  - intros Hopen Hclose Hfail crawl s_b.
    assert (crawl b (log_call a b s) = Returned s_b) as Hb.
    { unfold crawl, s_b. by apply spa_failed_visit. }
    split; [done|]. split.
    + cbn [for_each_link]. rewrite bool_decide_eq_true_2 by done.
      rewrite startswith_contains by done. cbn [andb]. by rewrite Hb.
    + intros s' Hs'.
      eapply for_each_link_loop with (good_record := spa_keys)
        (good_link := λ _, True) (good_links := λ links, (length links ≤ 10)%nat)
        (d := depth) (max_depth := max_depth) in Hs'; [| |done].
      * by apply loop_grows in Hs' as (_ & ? & _).
      * intros link s0 r s1 Hr Hs1.
        eapply spa_crawl_run; [|exact Hr|exact Hs1]. intros; apply Forall_True.
  - apply static_main_returns.
  - apply spa_main_returns.
Qed.

End ErrorIsolation.

(** ** Facts about the string methods *)

Lemma has_char_app c a b :
  has_char c (a +:+ b) = has_char c a || has_char c b.
Proof.
  induction a as [|d a IH]; simpl; [done|]. rewrite IH. by rewrite orb_assoc.
Qed.

Lemma has_char_before_char c s : has_char c (before_char c s) = false.
Proof.
  induction s as [|d s IH]; simpl; [done|].
  destruct (Ascii.eqb c d) eqn:E; simpl; [done|]. by rewrite E.
Qed.

Lemma before_char_absent c s : has_char c s = false → before_char c s = s.
Proof.
  induction s as [|d s IH]; simpl; [done|].
  intros [-> Hs]%orb_false_elim. by rewrite IH.
Qed.

Lemma has_char_rstrip c d s :
  has_char c s = false → has_char c (rstrip d s) = false.
Proof.
  induction s as [|a s IH]; simpl; [done|].
  intros [Ha Hs]%orb_false_elim. specialize (IH Hs).
  destruct (rstrip d s) eqn:E.
  - destruct (Ascii.eqb d a); simpl; [done|]. by rewrite Ha.
  - simpl in *. by rewrite Ha, IH.
Qed.

Lemma rstrip_idempotent c s : rstrip c (rstrip c s) = rstrip c s.
Proof.
  induction s as [|d s IH]; simpl; [done|].
  destruct (rstrip c s) as [|a r] eqn:E.
  - destruct (Ascii.eqb c d) eqn:Ed; simpl; [done|]. by rewrite Ed.
  - change (rstrip c (String d (String a r)))
      with (match rstrip c (String a r) with
            | EmptyString => if Ascii.eqb c d then EmptyString
                             else String d EmptyString
            | r0 => String d r0
            end).
    by rewrite IH.
Qed.

Lemma has_char_replace_double_slash c s :
  Ascii.eqb c "/" = false →
  has_char c (replace_double_slash s) = has_char c s.
Proof.
  intros Hc.
  assert (∀ s, has_char c (replace_double_slash s) = has_char c s
               ∧ ∀ a, has_char c (replace_double_slash (String a s))
                      = has_char c (String a s)) as H; [|apply H].
  clear s. induction s as [|d s [IH1 IH2]].
  - split; [done|]. intros a. simpl. by rewrite orb_false_r.
  - split; [apply IH2|]. intros a.
    change (replace_double_slash (String a (String d s)))
      with (if Ascii.eqb a "/" && Ascii.eqb d "/"
            then String "/" (replace_double_slash s)
            else String a (replace_double_slash (String d s))).
    destruct (Ascii.eqb a "/" && Ascii.eqb d "/") eqn:E.
    + apply andb_true_iff in E as [->%Ascii.eqb_eq ->%Ascii.eqb_eq].
      cbn [has_char]. by rewrite IH1, Hc.
    + cbn [has_char]. by rewrite IH2.
Qed.

Lemma all_chars_has_char (p : ascii → bool) c s :
  p c = false → all_chars p s = true → has_char c s = false.
Proof.
  intros Hc. induction s as [|d s IH]; simpl; [done|].
  intros [Hd Hs]%andb_true_iff. rewrite IH by done.
  destruct (Ascii.eqb c d) eqn:E; [|done].
  apply Ascii.eqb_eq in E as ->. congruence.
Qed.

Lemma canonical_url_idempotent u :
  canonical_url (canonical_url u) = canonical_url u.
Proof.
  unfold canonical_url.
  rewrite (before_char_absent "#" (rstrip "/" _)).
  - apply rstrip_idempotent.
  - apply has_char_rstrip, has_char_before_char.
Qed.

Lemma canonical_url_fixed u :
  has_char "#" u = false → canonical_url (rstrip "/" u) = rstrip "/" u.
Proof.
  intros Hu. unfold canonical_url.
  rewrite before_char_absent by by apply has_char_rstrip.
  apply rstrip_idempotent.
Qed.

Lemma js_unique_from_elem seen l x :
  x ∈ js_unique_from seen l → x ∈ l.
Proof.
  revert seen. induction l as [|y l IH]; intros seen; simpl; [done|].
  destruct (bool_decide (y ∈ seen)).
  - intros Hx. right. by eapply IH.
  - intros [->|Hx]%elem_of_cons; [left|right; by eapply IH].
Qed.

Lemma js_unique_from_complete seen l x :
  x ∈ l → x ∉ seen → x ∈ js_unique_from seen l.
Proof.
  revert seen. induction l as [|y l IH]; intros seen; simpl.
  - by intros ?%elem_of_nil.
  - intros [->|Hx]%elem_of_cons Hseen.
    + rewrite bool_decide_eq_false_2 by done. left.
    + destruct (bool_decide (y ∈ seen)) eqn:E; [by apply IH|].
      destruct (decide (x = y)) as [->|Hne]; [left|].
      right. apply IH; [done|]. by intros [?|?]%elem_of_cons.
Qed.

Lemma js_unique_elem l x : x ∈ js_unique l ↔ x ∈ l.
Proof.
  split; [apply js_unique_from_elem|].
  intros Hx. apply js_unique_from_complete; [done|]. by intros ?%elem_of_nil.
Qed.

(** ** Canonical links in the general variant *)

Lemma example_order_spec : set_order_spec example_order.
Proof.
  intros l. split; [apply NoDup_remove_dups|].
  intros x. apply elem_of_remove_dups.
Qed.

Section StaticLinks.

Variable set_order : list string → list string.
Variable urljoin : string → string → option string.
Variable now : nat → Q.
Variable static_web : nat → string → Static.visit.

Lemma normalize_link_canonical base_url link l :
  Static.normalize_link urljoin base_url link = Some l → canonical_url l = l.
Proof.
  unfold Static.normalize_link.
  destruct (if startswith link "/" then urljoin base_url link
            else if startswith link "http" then Some link else None)
    as [x|]; [|done].
  intros [= <-]. apply canonical_url_fixed.
  destruct (has_char "#" x) eqn:E; [apply has_char_before_char|done].
Qed.

Lemma normalize_link_http base_url link :
  startswith link "/" = false → startswith link "http" = true →
  Static.normalize_link urljoin base_url link = Some (canonical_url link).
Proof.
  intros H1 H2. unfold Static.normalize_link, canonical_url. rewrite H1, H2.
  destruct (has_char "#" link) eqn:E; [done|].
  by rewrite before_char_absent.
Qed.

(** C5, as amended. In the general variant the canonical form of a link is
    its text up to the first [#], without its final slashes; the query
    string stays.  Taking the canonical form twice is taking it once.  The
    list the extractor returns has no repetition, every link in it is its
    own canonical form, and every harvested link that starts with [http] is
    in it by its canonical form: harvested links with one canonical form
    are one candidate.  A run visits no URL twice, and every URL it visits,
    the start URL apart, is its own canonical form. *)
Theorem static_links_canonical doc base_url start_url max_depth :
  set_order_spec set_order →
  (∀ u, canonical_url (canonical_url u) = canonical_url u)
  ∧ NoDup (Static.extract_links_comprehensive set_order urljoin doc base_url)
  ∧ (∀ l, l ∈ Static.extract_links_comprehensive set_order urljoin doc base_url →
          canonical_url l = l)
  ∧ (∀ link, link ∈ Static.harvested doc →
             startswith link "/" = false → startswith link "http" = true →
             canonical_url link
             ∈ Static.extract_links_comprehensive set_order urljoin doc base_url)
  ∧ (∃ s', session_of (Static.main set_order urljoin static_web start_url
                         max_depth) = Some s'
           ∧ NoDup (visits s')
           ∧ ∀ v, v ∈ visits s' → v = start_url ∨ canonical_url v = v).
Proof.
  intros Horder.
  assert (∀ base doc0 l,
            l ∈ Static.extract_links_comprehensive set_order urljoin doc0 base →
            canonical_url l = l) as Hcanon.
  { intros base doc0 l Hl. unfold Static.extract_links_comprehensive in Hl.
    apply Horder, list_elem_of_omap in Hl as (link & _ & Hlink).
    by eapply normalize_link_canonical. }
  split; [apply canonical_url_idempotent|].
  split; [apply Horder|].
  split; [apply Hcanon|].
  split.
  - intros link Hlink H1 H2. unfold Static.extract_links_comprehensive.
    apply Horder, list_elem_of_omap. exists link. split; [done|].
    by apply normalize_link_http.
  - unfold Static.main.
    destruct (result_session _ (static_crawl_total set_order urljoin static_web
                (base_url_of start_url) start_url 0 max_depth empty_session))
      as [s' Hs'].
    exists s'. split; [done|].
    eapply (static_crawl_run _ _ _ _ (λ v, canonical_url v = v)) in Hs'; [| |done].
    + destruct (proj1 (run_loop_visits _ _ _ _ _) _ _ _ _ Hs') as [Honce Hin].
      split; [by apply Honce, visits_once_empty|].
      intros v Hv. apply Hin in Hv as [Hv|(_ & _ & _ & Hv)]; [|done].
      by apply elem_of_nil in Hv.
    + intros doc0. apply Forall_forall. apply Hcanon.
Qed.

End StaticLinks.

(** ** Links without query or fragment in the SPA-tuned variant *)

Lemma span_all_chars cls s : all_chars cls (Dynamic.span cls s).1 = true.
Proof.
  induction s as [|c s IH]; simpl; [done|].
  destruct (cls c) eqn:E; simpl; [|done]. by rewrite E, IH.
Qed.

Lemma quoted_path_all_chars cls least s g n :
  Dynamic.quoted_path cls least s = Some (g, n) → all_chars cls g = true.
Proof.
  unfold Dynamic.quoted_path.
  destruct s as [|q [|sl t]]; [done..|].
  destruct (Dynamic.is_quote q && Ascii.eqb sl "/"); [|done].
  destruct (Dynamic.span cls t).2 as [|q' rest]; [done|].
  destruct (Dynamic.is_quote q' && _); [|done].
  intros [= <- _]. apply span_all_chars.
Qed.

Lemma py_route_match_all_chars lit spaces s g n :
  Dynamic.py_route_match lit spaces s = Some (g, n) →
  all_chars Dynamic.py_route_char g = true.
Proof.
  unfold Dynamic.py_route_match.
  destruct (Dynamic.strip_prefix lit s) as [t|]; [|done].
  destruct (Dynamic.quoted_path _ _ _) as [[g0 n0]|] eqn:E; [|done].
  intros [= <- _]. by eapply quoted_path_all_chars.
Qed.

Lemma findall_Forall (P : string → Prop) m pending s :
  (∀ t g n, m t = Some (g, n) → P g) →
  Forall P (Dynamic.findall m pending s).
Proof.
  intros Hm. revert pending.
  induction s as [|c s IH]; intros pending; simpl; [constructor|].
  destruct pending as [|k]; [|apply IH].
  destruct (m (String c s)) as [[g n]|] eqn:E; [|apply IH].
  constructor; [by eapply Hm|apply IH].
Qed.

Lemma plain_url_app a b : plain_url a → plain_url b → plain_url (a +:+ b).
Proof.
  intros [Ha1 Ha2] [Hb1 Hb2]. split; rewrite has_char_app; by rewrite ?Ha1, ?Ha2.
Qed.

Lemma all_chars_route_plain m :
  all_chars Dynamic.py_route_char m = true → plain_url m.
Proof.
  intros Hm. split; eapply all_chars_has_char; try exact Hm; done.
Qed.

Lemma potential_url_plain base_url m u :
  plain_url base_url → all_chars Dynamic.py_route_char m = true →
  Dynamic.potential_url base_url m = Some u → plain_url u.
Proof.
  intros Hbase Hm. unfold Dynamic.potential_url.
  destruct (negb _ && negb _); [|done].
  destruct (startswith _ base_url); [|done].
  intros [= <-].
  assert (plain_url (base_url +:+ "/" +:+ m)) as [H1 H2].
  { apply plain_url_app; [done|]. apply plain_url_app; [done|].
    by apply all_chars_route_plain. }
  split; by rewrite has_char_replace_double_slash.
Qed.

Lemma keep_absolute_plain base_url link :
  Dynamic.keep_absolute base_url link = true → plain_url link.
Proof.
  unfold Dynamic.keep_absolute. intros H.
  repeat (apply andb_true_iff in H as [H ?]).
  split; by apply negb_true_iff.
Qed.

Lemma harvested_plain doc base_url link :
  link ∈ Dynamic.harvested doc base_url → plain_url link.
Proof.
  unfold Dynamic.harvested.
  intros [Hkeep _]%js_unique_elem%list_elem_of_filter.
  apply (keep_absolute_plain base_url). by apply Is_true_true.
Qed.

Lemma page_source_links_plain doc base_url link :
  plain_url base_url →
  link ∈ Dynamic.page_source_links doc base_url → plain_url link.
Proof.
  intros Hbase. unfold Dynamic.page_source_links.
  destruct (Dynamic.content doc) as [page_content|]; [|by intros ?%elem_of_nil].
  intros (pattern & _ & Hin)%list_elem_of_In%in_flat_map.
  apply list_elem_of_In, list_elem_of_omap in Hin as (m & Hm & Hpot).
  eapply potential_url_plain; [done| |exact Hpot].
  pose proof (findall_Forall (λ g, all_chars Dynamic.py_route_char g = true)
                (Dynamic.py_route_match pattern.1 pattern.2) 0 page_content) as Hall.
  rewrite Forall_forall in Hall. apply Hall; [|done].
  intros t g n. apply py_route_match_all_chars.
Qed.

Lemma extract_spa_links_plain set_order doc base_url link :
  set_order_spec set_order → plain_url base_url →
  link ∈ Dynamic.extract_spa_links set_order doc base_url → plain_url link.
Proof.
  intros Horder Hbase. unfold Dynamic.extract_spa_links.
  intros [Hl|Hl]%Horder%elem_of_app.
  - by eapply harvested_plain.
  - by eapply page_source_links_plain.
Qed.

Lemma scheme_char_lower_plain c :
  scheme_char c = true →
  Ascii.eqb "#" (ascii_lower c) = false ∧ Ascii.eqb "?" (ascii_lower c) = false.
Proof.
  destruct c as [[] [] [] [] [] [] [] []]; vm_compute; intros; done.
Qed.

Lemma lower_plain s : all_chars scheme_char s = true → plain_url (lower s).
Proof.
  induction s as [|c s IH]; [done|].
  cbn [all_chars]. intros [Hc Hs]%andb_true_iff.
  destruct (scheme_char_lower_plain c Hc) as [H1 H2].
  destruct (IH Hs) as [IH1 IH2].
  unfold plain_url. cbn [lower has_char]. by rewrite H1, H2, IH1, IH2.
Qed.

Lemma before_delimiter_plain s : plain_url (before_delimiter s).
Proof.
  induction s as [|c s [IH1 IH2]]; [done|].
  cbn [before_delimiter].
  destruct (Ascii.eqb c "/" || Ascii.eqb c "?" || Ascii.eqb c "#") eqn:E; [done|].
  apply orb_false_elim in E as [E E3]. apply orb_false_elim in E as [E1 E2].
  unfold plain_url. cbn [has_char].
  by rewrite IH1, IH2, (Ascii.eqb_sym "#" c), (Ascii.eqb_sym "?" c), E2, E3.
Qed.

Lemma base_url_of_plain start_url : plain_url (base_url_of start_url).
Proof.
  unfold base_url_of. apply plain_url_app; [|apply plain_url_app; [done|]].
  - unfold urlparse_scheme, split_scheme.
    destruct (before_char ":" start_url) as [|c head] eqn:E; [done|].
    destruct (has_char ":" start_url && ascii_alpha c
              && all_chars scheme_char (String c head)) eqn:E2; [|done].
    apply andb_true_iff in E2 as [_ E2]. by apply lower_plain.
  - unfold urlparse_netloc.
    destruct (startswith _ "//"); [apply before_delimiter_plain|done].
Qed.

Lemma set_order_nil set_order : set_order_spec set_order → set_order [] = [].
Proof.
  intros Horder. destruct (set_order []) as [|x l] eqn:E; [done|].
  assert (x ∈ set_order []) as Hx by (rewrite E; left).
  apply (proj1 (proj2 (Horder []) x)) in Hx. by apply elem_of_nil in Hx.
Qed.

Section SpaLinks.

Variable set_order : list string → list string.
Variable now : nat → Q.
Variable spa_web : nat → string → Dynamic.visit.

(** C10. In the SPA-tuned variant, for a base URL that has neither [?] nor
    [#] (as every base URL that [main] computes), no URL that
    [extract_spa_links] returns has a [?] or a [#].  The filter of the
    script rejects a link that has one, and the link is not replaced by a
    shorter one: a page whose only anchor resolves to such a link yields no
    link at all.  So every URL that a run visits, the start URL apart, has
    neither query nor fragment. *)
Theorem spa_links_plain doc base_url start_url max_depth :
  set_order_spec set_order →
  plain_url base_url →
  (∀ link, link ∈ Dynamic.extract_spa_links set_order doc base_url →
           plain_url link)
  ∧ (∀ link, has_char "#" link = true ∨ has_char "?" link = true →
             Dynamic.keep_absolute base_url link = false)
  ∧ (∀ href, has_char "#" (Dynamic.absolute base_url href) = true
             ∨ has_char "?" (Dynamic.absolute base_url href) = true →
             Dynamic.extract_spa_links set_order (one_anchor href) base_url = [])
  ∧ (∃ s', session_of (Dynamic.main set_order now spa_web start_url max_depth)
           = Some s'
           ∧ ∀ v, v ∈ visits s' → v = start_url ∨ plain_url v).
Proof.
  intros Horder Hbase.
  assert (∀ link, has_char "#" link = true ∨ has_char "?" link = true →
                  Dynamic.keep_absolute base_url link = false) as Hdrop.
  { intros link Hlink. unfold Dynamic.keep_absolute.
    destruct (startswith link base_url); [|done].
    destruct Hlink as [->| ->]; simpl; [done|].
    by destruct (has_char "#" link). }
  split; [|split; [done|split]].
  - intros link. by apply extract_spa_links_plain.
  - intros href Hhref. apply Hdrop in Hhref.
    unfold Dynamic.extract_spa_links, Dynamic.harvested, one_anchor,
      Dynamic.page_source_links. cbn [Dynamic.hrefs Dynamic.data_attrs
      Dynamic.onclicks Dynamic.scripts Dynamic.content omap].
    assert (Dynamic.route_paths (String.concat " " []) = []) as -> by done.
    rewrite !app_nil_r.
    destruct (decide (Is_true (Dynamic.keep_href href))) as [Hk|Hk].
    + rewrite filter_cons_True, filter_nil by done.
      unfold js_unique. cbn [js_unique_from map].
      rewrite bool_decide_eq_false_2 by by intros ?%elem_of_nil.
      cbn [js_unique_from map]. rewrite filter_cons_False, filter_nil.
      * by apply set_order_nil.
      * rewrite Hhref. exact id.
    + rewrite filter_cons_False, filter_nil by done. by apply set_order_nil.
  - destruct (spa_main_run set_order now spa_web plain_url start_url max_depth)
      as (s' & Hs' & Hrun).
    + intros doc0. apply Forall_forall. intros link Hlink.
      apply (proj1 (proj2 (Horder _) link)) in Hlink.
      eapply extract_spa_links_plain; [done|apply base_url_of_plain|exact Hlink].
    + exists s'. split; [done|]. intros v Hv.
      destruct (proj1 (run_loop_visits _ _ _ _ _) _ _ _ _ Hrun) as [_ Hin].
      apply Hin in Hv as [Hv|(_ & _ & _ & Hv)]; [|done].
      by apply elem_of_nil in Hv.
Qed.

End SpaLinks.

(** ** The theorems at work on the example site *)

(** C1 on the example site: the empty session has no repeated visit, and
    neither has any session a crawl of the site leaves. *)
Lemma visited_at_most_once_witness :
  visits_once empty_session
  ∧ (∀ s', session_of (Static.crawl example_order example_urljoin
                         example_static_site 3 "https://example.com"
                         "https://example.com/" 0 1 empty_session) = Some s' →
           visits_once s')
  ∧ (∀ s', session_of (Dynamic.crawl_spa example_order example_now
                         example_spa_site 3 "https://example.com"
                         "https://example.com/" 0 1 empty_session) = Some s' →
           visits_once s').
Proof.
  split; [exact visits_once_empty|].
  destruct (visited_at_most_once example_order example_urljoin example_now
              example_static_site example_spa_site 3 "https://example.com"
              "https://example.com/" 0 1 empty_session visits_once_empty)
    as (Hstatic & Hspa & _).
  split; [exact Hstatic|exact Hspa].
Defined.

(** C5, as amended, on a page that links to [/about] three times: by its
    plain URL, with a fragment and with a final slash. *)
Lemma static_links_canonical_witness :
  set_order_spec example_order
  ∧ NoDup (Static.extract_links_comprehensive example_order example_urljoin
             example_document "https://example.com")
  ∧ canonical_url "https://example.com/about#team"
    ∈ Static.extract_links_comprehensive example_order example_urljoin
        example_document "https://example.com"
  ∧ canonical_url "https://example.com/about/"
    = canonical_url "https://example.com/about#team".
Proof.
  split; [exact example_order_spec|].
  destruct (static_links_canonical example_order example_urljoin
              example_static_site example_document "https://example.com"
              "https://example.com/" 1 example_order_spec)
    as (_ & Hnodup & _ & Hin & _).
  split; [exact Hnodup|]. split; [|reflexivity].
  apply Hin; [|reflexivity..].
  apply list_elem_of_In. vm_compute. tauto.
Defined.

(** C8 on the example site: the home page is recorded, and the loop over
    its links reaches [/gone], which does not load, before [/about]. *)
Lemma error_isolation_witness :
("https://example.com/gone" ∉ visited home_recorded)
  ∧ startswith "https://example.com/gone" "https://example.com" = true
  ∧ 1 ≤ 1
  ∧ for_each_link
      (λ link s0, Static.crawl example_order example_urljoin example_static_site
                    2 "https://example.com" link 1 1 s0)
      "https://example.com" "https://example.com/"
      ["https://example.com/gone"; "https://example.com/about"] home_recorded
    = for_each_link
        (λ link s0, Static.crawl example_order example_urljoin example_static_site
                      2 "https://example.com" link 1 1 s0)
        "https://example.com" "https://example.com/"
        ["https://example.com/about"]
        (append_record
           (Static.error_record "https://example.com/gone"
              "net::ERR_NAME_NOT_RESOLVED" 1)
           (begin_visit "https://example.com/gone"
              (log_call "https://example.com/" "https://example.com/gone"
                 home_recorded)))
  ∧ Dynamic.crawl_spa example_order example_now example_spa_site 2
      "https://example.com" "https://example.com/gone" 1 1
      (log_call "https://example.com/" "https://example.com/gone" home_recorded)
    = Returned
        (append_record
           (Dynamic.error_record example_now "https://example.com/gone"
              "Failed to navigate to SPA route" 1
              (begin_visit "https://example.com/gone"
                 (log_call "https://example.com/" "https://example.com/gone"
                    home_recorded)))
           (begin_visit "https://example.com/gone"
              (log_call "https://example.com/" "https://example.com/gone"
                 home_recorded)))
  ∧ (∃ s', Static.main example_order example_urljoin example_static_site
             "https://example.com/" 1 = Returned s')
  ∧ (∃ s', Dynamic.main example_order example_now example_spa_site
             "https://example.com/" 1 = Returned s').
Proof.
  assert ("https://example.com/gone" ∉ visited home_recorded) as Hnew.
  { intros Hin. apply (bool_decide_pack _) in Hin. by vm_compute in Hin. }
  assert (1 ≤ 1) as Hdepth by lia.
  split; [exact Hnew|]. split; [reflexivity|]. split; [exact Hdepth|].
  destruct (error_isolation example_order example_urljoin example_now
              example_static_site example_spa_site 1 "https://example.com"
              "https://example.com/" "https://example.com/gone"
              ["https://example.com/about"] 1 1 home_recorded
              "net::ERR_NAME_NOT_RESOLVED" "Failed to navigate to SPA route"
              "https://example.com/" Hnew eq_refl Hdepth)
    as (Hstatic & Hspa & Hmain & Hspa_main).
  split; [|split; [|split]].
  - by destruct (Hstatic eq_refl) as (_ & Hloop & _).
  - destruct (Hspa eq_refl eq_refl) as (Hb & _); [left; by split|exact Hb].
  - exact (Hmain eq_refl eq_refl).
  - exact (Hspa_main eq_refl eq_refl).
Defined.

(** C10 on a page that has links of every harvested kind. *)
Lemma spa_links_plain_witness :
  set_order_spec example_order
  ∧ plain_url "https://example.com"
  ∧ (∀ link, link ∈ Dynamic.extract_spa_links example_order example_spa_document
                      "https://example.com" →
             plain_url link)
  ∧ Dynamic.extract_spa_links example_order (one_anchor "/search?q=a")
      "https://example.com" = [].
Proof.
  assert (plain_url "https://example.com") as Hbase by (by split).
  split; [exact example_order_spec|]. split; [exact Hbase|].
  destruct (spa_links_plain example_order example_now example_spa_site
              example_spa_document "https://example.com" "https://example.com/" 1
              example_order_spec Hbase)
    as (Hplain & _ & Hdrop & _).
  split; [exact Hplain|]. apply Hdrop. by right.
Defined.

(** ** How many records a URL gets *)

Lemma records_of_append_records q failed rs s :
  records_of q failed (append_records rs s)
  = (records_of q failed s
     + length (filter (λ p, r_url p = q ∧ is_error p = failed) rs))%nat.
Proof. unfold records_of. simpl. by rewrite filter_app, length_app. Qed.

Lemma records_of_begin_visit q failed u s :
  records_of q failed (begin_visit u s) = records_of q failed s.
Proof. done. Qed.

Lemma records_of_log_call q failed p c s :
  records_of q failed (log_call p c s) = records_of q failed s.
Proof. done. Qed.

Lemma tallied_refl opens s : tallied opens s s.
Proof.
  split; [done|]. intros q. split.
  - intros failed. split; [done|lia].
  - intros _ Hout Hin. done.
Qed.

Lemma tallied_trans opens s1 s2 s3 :
  tallied opens s1 s2 → tallied opens s2 s3 → tallied opens s1 s3.
Proof.
  intros [Hsub1 H1] [Hsub2 H2]. split; [by etrans|].
  intros q. destruct (H1 q) as [H1c H1l]. destruct (H2 q) as [H2c H2l].
  split.
  - intros failed.
    destruct (H1c failed) as [H1eq H1le]. destruct (H2c failed) as [H2eq H2le].
    split.
    + intros [Hq|Hq].
      * rewrite H2eq, H1eq; [done|by left|left; by apply Hsub1].
      * rewrite H2eq, H1eq; [done| |by right].
        right. intros Hq2. apply Hq. by apply Hsub2.
    + destruct (decide (q ∈ visited s2)) as [Hq|Hq].
      * rewrite H2eq by by left. done.
      * rewrite H1eq in H2le by by right. done.
  - intros Hopens Hout Hin.
    destruct (decide (q ∈ visited s2)) as [Hq|Hq].
    + destruct (H2c false) as [H2f _]. destruct (H2c true) as [H2t _].
      rewrite H2f, H2t by by left. by apply H1l.
    + destruct (H1c false) as [H1f _]. destruct (H1c true) as [H1t _].
      rewrite <-H1f, <-H1t by by right. by apply H2l.
Qed.

Lemma tallied_log_call opens p c s : tallied opens s (log_call p c s).
Proof.
  split; [done|]. intros q. split.
  - intros failed. rewrite records_of_log_call. split; [done|lia].
  - intros _ Hout Hin. done.
Qed.

(** One visit: the page's own records around what the loop over its links
    does. *)
Lemma tallied_visit opens u before after s s3 :
  u ∉ visited s →
  Forall (λ p, r_url p = u ∧ is_error p = false) before →
  Forall (λ p, r_url p = u ∧ is_error p = true) after →
  (length before ≤ 1)%nat → (length after ≤ 1)%nat →
  (opens → (0 < length before + length after)%nat) →
  tallied opens (append_records before (begin_visit u s)) s3 →
  tallied opens s (append_records after s3).
Proof.
  intros Hu Hbefore Hafter Hlb Hla Hsome [Hsub Hloop].
  assert (∀ failed (rs : list PageRecord) q, q ≠ u →
            Forall (λ p, r_url p = u ∧ is_error p = failed) rs →
            ∀ f, filter (λ p, r_url p = q ∧ is_error p = f) rs = []) as Hother.
  { intros failed rs q Hne Hrs f. induction Hrs as [|p rs [Hp _] _ IH]; [done|].
    rewrite filter_cons_False; [done|]. intros [Hq _]. congruence. }
  assert (∀ failed (rs : list PageRecord),
            Forall (λ p, r_url p = u ∧ is_error p = failed) rs →
            filter (λ p, r_url p = u ∧ is_error p = failed) rs = rs
            ∧ filter (λ p, r_url p = u ∧ is_error p = negb failed) rs = []) as Hmine.
  { intros failed rs Hrs. induction Hrs as [|p rs [Hp1 Hp2] _ [IH1 IH2]]; [done|].
    split.
    - rewrite filter_cons_True by done. by rewrite IH1.
    - rewrite filter_cons_False; [done|]. intros [_ Hq].
      rewrite Hp2 in Hq. by destruct failed. }
  destruct (Hmine false before Hbefore) as [Hb1 Hb2].
  destruct (Hmine true after Hafter) as [Ha1 Ha2]. simpl in Hb2, Ha2.
  simpl in Hsub. split; [set_solver|].
  intros q. destruct (Hloop q) as [Hqc Hql].
  destruct (decide (q = u)) as [->|Hne].
  - assert (∀ failed, records_of u failed s3
                      = records_of u failed (append_records before (begin_visit u s)))
      as Hsame.
    { intros failed. apply Hqc. left. simpl. set_solver. }
    assert (records_of u false (append_records after s3)
            = (records_of u false s + length before)%nat) as Hsucc.
    { rewrite records_of_append_records, Ha2, Hsame, records_of_append_records,
        records_of_begin_visit, Hb1. simpl. lia. }
    assert (records_of u true (append_records after s3)
            = (records_of u true s + length after)%nat) as Hfail.
    { rewrite records_of_append_records, Ha1, Hsame, records_of_append_records,
        records_of_begin_visit, Hb2. simpl. lia. }
    split.
    + intros failed. split.
      * intros [Hq|Hq]; [done|]. exfalso. apply Hq. simpl. set_solver.
      * destruct failed; [rewrite Hfail|rewrite Hsucc]; lia.
    + intros Hopens _ _. rewrite Hsucc, Hfail. specialize (Hsome Hopens). lia.
  - assert (∀ failed, records_of q failed (append_records after s3)
                      = records_of q failed s3) as Hend.
    { intros failed. rewrite records_of_append_records.
      rewrite (Hother true after q Hne Hafter). simpl. lia. }
    assert (∀ failed, records_of q failed (append_records before (begin_visit u s))
                      = records_of q failed s) as Hstart.
    { intros failed. rewrite records_of_append_records, records_of_begin_visit.
      rewrite (Hother false before q Hne Hbefore). simpl. lia. }
    split.
    + intros failed. destruct (Hqc failed) as [Heq Hle].
      rewrite Hend. rewrite Hstart in Heq, Hle. split; [|done].
      intros [Hq|Hq]; apply Heq; simpl in *; [left; set_solver|by right].
    + intros Hopens Hout Hin. rewrite !Hend. rewrite <-(Hstart false), <-(Hstart true).
      apply Hql; simpl in *; [done|set_solver|done].
Qed.

Lemma for_each_link_tallied opens (call : string → session → result)
    base_url parent links s res s' :
  (∀ link s0 r s1, call link s0 = r → session_of r = Some s1 →
                   tallied opens s0 s1) →
  for_each_link call base_url parent links s = res →
  session_of res = Some s' →
  tallied opens s s'.
Proof.
  intros Hcall. revert s.
  induction links as [|link rest IH]; intros s; simpl.
  - intros <- [= <-]. apply tallied_refl.
  - destruct (bool_decide (link ∉ visited s) && contains link base_url); [|apply IH].
    destruct (call link (log_call parent link s)) as [|s1|e s1] eqn:E.
    + by intros <-.
    + intros Hres Hs'. eapply tallied_trans; [apply (tallied_log_call _ parent link)|].
      eapply tallied_trans; [by eapply Hcall|by eapply IH].
    + intros <- [= <-]. eapply tallied_trans; [apply (tallied_log_call _ parent link)|].
      by eapply Hcall.
Qed.

Section Tally.

Variable open_error close_error : nat → string → option string.
Variable visit_page : nat → string → string → Z → session → attempt.
Variable failure : string → string → Z → session → PageRecord.
Variable base_url : string.
Variable max_depth : Z.

Hypothesis visit_page_success : ∀ n u d s r next,
  visit_page n base_url u d s = Recorded r next →
  r_url r = u ∧ is_error r = false.
Hypothesis failure_error : ∀ u e d s,
  r_url (failure u e d s) = u ∧ is_error (failure u e d s) = true.

Lemma traverse_tallied fuel current_url depth s res s' :
  traverse open_error close_error visit_page failure fuel base_url current_url
    depth max_depth s = res →
  session_of res = Some s' →
  tallied (∀ n u, open_error n u = None) s s'.
Proof.
  revert current_url depth s res s'.
  induction fuel as [|fuel IH]; intros u d s res s'; simpl; [by intros <-|].
  destruct (skip base_url u d max_depth s) eqn:Hskip.
  { intros <- [= <-]. apply tallied_refl. }
  apply skip_false in Hskip as (Hu & _ & _).
  destruct (open_error _ _) as [e|] eqn:Hopen.
  { intros <- [= <-].
    rewrite <-(append_records_nil (begin_visit u s)).
    apply (tallied_visit _ u [] []); try done; try (simpl; lia).
    - intros Hopens. rewrite Hopens in Hopen. done.
    - rewrite append_records_nil. apply tallied_refl. }
  intros <- Hs'. apply finally_close_session in Hs'.
  destruct (visit_page _ _ _ _ _) as [e|r next] eqn:Hvisit; simpl in Hs'.
  { injection Hs' as <-. rewrite append_record_records.
    apply (tallied_visit _ u [] [_]); try done; try (simpl; lia).
    - constructor; [apply failure_error|constructor].
    - rewrite append_records_nil. apply tallied_refl. }
  pose proof (visit_page_success _ _ _ _ _ _ Hvisit) as Hr.
  destruct next as [e|links]; simpl in Hs'.
  { injection Hs' as <-. rewrite !append_record_records.
    apply (tallied_visit _ u [r] [_]); try done; try (simpl; lia).
    - by constructor.
    - constructor; [apply failure_error|constructor].
    - apply tallied_refl. }
  destruct (for_each_link _ _ _ _ _) as [|s1|e s1] eqn:Hloop; simpl in Hs'; [done| |].
  - injection Hs' as <-. rewrite <-(append_records_nil s1).
    apply (tallied_visit _ u [r] []); try done; try (simpl; lia).
    + by constructor.
    + eapply for_each_link_tallied; [|exact Hloop|done].
      intros link s0 r0 s2 Hr0 Hs2. eapply IH; [exact Hr0|exact Hs2].
  - injection Hs' as <-. rewrite append_record_records.
    apply (tallied_visit _ u [r] [_]); try done; try (simpl; lia).
    + by constructor.
    + constructor; [apply failure_error|constructor].
    + eapply for_each_link_tallied; [|exact Hloop|done].
      intros link s0 r0 s2 Hr0 Hs2. eapply IH; [exact Hr0|exact Hs2].
Qed.

End Tally.

Section RecordCounts.

Variable set_order : list string → list string.
Variable urljoin : string → string → option string.
Variable now : nat → Q.
Variable static_web : nat → string → Static.visit.
Variable spa_web : nat → string → Dynamic.visit.

Lemma static_main_tallied start_url max_depth :
  ∃ s', session_of (Static.main set_order urljoin static_web start_url max_depth)
        = Some s'
        ∧ tallied (∀ n u, Static.new_page_error (static_web n u) = None)
            empty_session s'.
Proof.
  unfold Static.main.
  destruct (result_session _ (static_crawl_total set_order urljoin static_web
              (base_url_of start_url) start_url 0 max_depth empty_session))
    as [s' Hs'].
  exists s'. split; [done|].
  rewrite static_crawl_traverse in Hs'.
  eapply traverse_tallied in Hs'; [exact Hs'| | |done].
  - intros n u d s r next. unfold static_visit.
    destruct (Static.loaded _) as [e|[info links]]; [done|]. by intros [= <- _].
  - done.
Qed.

Lemma spa_main_tallied start_url max_depth :
  ∃ s', session_of (Dynamic.main set_order now spa_web start_url max_depth)
        = Some s'
        ∧ tallied (∀ n u, Dynamic.new_page_error (spa_web n u) = None)
            empty_session s'.
Proof.
  unfold Dynamic.main.
  destruct (result_session _ (spa_crawl_total set_order now spa_web
              (base_url_of start_url) start_url 0 max_depth empty_session))
    as [s' Hs'].
  exists s'. split; [done|].
  rewrite spa_crawl_traverse in Hs'.
  eapply traverse_tallied in Hs'; [exact Hs'| | |done].
  - intros n u d s r next. unfold spa_visit.
    destruct (negb _); [done|].
    destruct (Dynamic.loaded _) as [e|[info links]]; [done|]. by intros [= <- _].
  - done.
Qed.

Lemma tallied_from_empty opens s' u :
  tallied opens empty_session s' →
  (records_of u false s' ≤ 1)%nat ∧ (records_of u true s' ≤ 1)%nat
  ∧ (u ∉ visited s' → records_of u false s' = 0%nat ∧ records_of u true s' = 0%nat)
  ∧ (opens → u ∈ visited s' →
     (1 ≤ records_of u false s' + records_of u true s')%nat).
Proof.
  intros [_ H]. destruct (H u) as [Hc Hl].
  destruct (Hc false) as [Heq0 Hle0]. destruct (Hc true) as [Heq1 Hle1].
  change (records_of u false empty_session) with 0%nat in *.
  change (records_of u true empty_session) with 0%nat in *.
  split; [lia|]. split; [lia|]. split.
  - intros Hu. split; [apply Heq0|apply Heq1]; by right.
  - intros Hopens Hu. apply Hl in Hu; [lia|done|]. by intros ?%elem_of_empty.
Qed.

(** X1. Both [main] functions leave a sitemap with, for every URL, at most
    one success record and at most one error record, and with no record at
    all for a URL that was not visited. *)
Theorem records_per_url start_url max_depth :
  (∃ s', session_of (Static.main set_order urljoin static_web start_url max_depth)
         = Some s'
         ∧ ∀ u, (records_of u false s' ≤ 1)%nat ∧ (records_of u true s' ≤ 1)%nat
                ∧ (u ∉ visited s' →
                   records_of u false s' = 0%nat ∧ records_of u true s' = 0%nat))
  ∧ (∃ s', session_of (Dynamic.main set_order now spa_web start_url max_depth)
           = Some s'
           ∧ ∀ u, (records_of u false s' ≤ 1)%nat ∧ (records_of u true s' ≤ 1)%nat
                  ∧ (u ∉ visited s' →
                     records_of u false s' = 0%nat ∧ records_of u true s' = 0%nat)).
Proof.
  split.
  - destruct (static_main_tallied start_url max_depth) as (s' & Hs' & Ht).
    exists s'. split; [done|]. intros u.
    by destruct (tallied_from_empty _ _ u Ht) as (? & ? & ? & _).
  - destruct (spa_main_tallied start_url max_depth) as (s' & Hs' & Ht).
    exists s'. split; [done|]. intros u.
    by destruct (tallied_from_empty _ _ u Ht) as (? & ? & ? & _).
Qed.

(** X2. When the creation of a page never raises, both [main] functions
    leave a sitemap with at least one record for every URL in the visited
    set. *)
Theorem visited_pages_are_recorded start_url max_depth :
  (∀ n u, Static.new_page_error (static_web n u) = None) →
  (∀ n u, Dynamic.new_page_error (spa_web n u) = None) →
  (∃ s', session_of (Static.main set_order urljoin static_web start_url max_depth)
         = Some s'
         ∧ ∀ u, u ∈ visited s' →
             (1 ≤ records_of u false s' + records_of u true s')%nat)
  ∧ (∃ s', session_of (Dynamic.main set_order now spa_web start_url max_depth)
           = Some s'
           ∧ ∀ u, u ∈ visited s' →
               (1 ≤ records_of u false s' + records_of u true s')%nat).
Proof.
  intros Hstatic Hspa. split.
  - destruct (static_main_tallied start_url max_depth) as (s' & Hs' & Ht).
    exists s'. split; [done|]. intros u Hu.
    destruct (tallied_from_empty _ _ u Ht) as (_ & _ & _ & Hone). by apply Hone.
  - destruct (spa_main_tallied start_url max_depth) as (s' & Hs' & Ht).
    exists s'. split; [done|]. intros u Hu.
    destruct (tallied_from_empty _ _ u Ht) as (_ & _ & _ & Hone). by apply Hone.
Qed.

End RecordCounts.

Lemma static_site_opens pages n u :
  Static.new_page_error (static_site pages n u) = None.
Proof. unfold static_site. by destruct (assoc u pages). Qed.

Lemma spa_site_opens pages n u :
  Dynamic.new_page_error (spa_site pages n u) = None.
Proof. unfold spa_site. by destruct (assoc u pages). Qed.

(** X2 on the example sites, whose pages are always created. *)
Lemma visited_pages_are_recorded_witness :
  (∀ n u, Static.new_page_error (example_static_site n u) = None)
  ∧ (∀ n u, Dynamic.new_page_error (example_spa_site n u) = None)
  ∧ (∃ s', session_of (Static.main example_order example_urljoin
                         example_static_site "https://example.com/" 1) = Some s'
           ∧ ∀ u, u ∈ visited s' →
               (1 ≤ records_of u false s' + records_of u true s')%nat)
  ∧ (∃ s', session_of (Dynamic.main example_order example_now
                         example_spa_site "https://example.com/" 1) = Some s'
           ∧ ∀ u, u ∈ visited s' →
               (1 ≤ records_of u false s' + records_of u true s')%nat).
Proof.
  split; [intros; apply static_site_opens|].
  split; [intros; apply spa_site_opens|].
  apply (visited_pages_are_recorded example_order example_urljoin example_now
           example_static_site example_spa_site "https://example.com/" 1).
  - intros. apply static_site_opens.
  - intros. apply spa_site_opens.
Defined.

(** ** The start of a run *)

Lemma skip_empty base_url start_url max_depth :
  skip base_url start_url 0 max_depth empty_session
  = negb (startswith start_url base_url) || (0 >? max_depth).
Proof. done. Qed.

Section RunStart.

Variable set_order : list string → list string.
Variable urljoin : string → string → option string.
Variable now : nat → Q.
Variable static_web : nat → string → Static.visit.
Variable spa_web : nat → string → Dynamic.visit.

Lemma static_loop_grows fuel base_url parent links depth max_depth s s' :
  session_of (for_each_link
                (λ link s0, Static.crawl set_order urljoin static_web fuel
                              base_url link depth max_depth s0)
                base_url parent links s) = Some s' →
  grows s s'.
Proof.
  intros Hs'.
  eapply for_each_link_loop with (good_record := static_keys)
    (good_link := λ _, True) (good_links := λ _, True) (d := depth)
    (max_depth := max_depth) in Hs'; [| |done].
  - by apply loop_grows in Hs'.
  - intros link s0 r s1 Hr Hs1.
    eapply static_crawl_run; [|exact Hr|exact Hs1]. intros; apply Forall_True.
Qed.

Lemma spa_loop_grows fuel base_url parent links depth max_depth s s' :
  session_of (for_each_link
                (λ link s0, Dynamic.crawl_spa set_order now spa_web fuel
                              base_url link depth max_depth s0)
                base_url parent links s) = Some s' →
  grows s s'.
Proof.
  intros Hs'.
  eapply for_each_link_loop with (good_record := spa_keys)
    (good_link := λ _, True) (good_links := λ links, (length links ≤ 10)%nat)
    (d := depth) (max_depth := max_depth) in Hs'; [| |done].
  - by apply loop_grows in Hs'.
  - intros link s0 r s1 Hr Hs1.
    eapply spa_crawl_run; [|exact Hr|exact Hs1]. intros; apply Forall_True.
Qed.

(** X3. When the start URL starts with the base URL computed from it, the
    depth bound is not negative and the creation of the first page does not
    raise, both [main] functions leave a sitemap whose first record is for
    the start URL, at depth 0. *)
Theorem first_record_is_start start_url max_depth :
  startswith start_url (base_url_of start_url) = true →
  0 ≤ max_depth →
  Static.new_page_error (static_web 0 start_url) = None →
  Dynamic.new_page_error (spa_web 0 start_url) = None →
  (∃ s' r rest,
     session_of (Static.main set_order urljoin static_web start_url max_depth)
     = Some s'
     ∧ sitemap s' = r :: rest ∧ r_url r = start_url ∧ r_depth r = 0)
  ∧ (∃ s' r rest,
       session_of (Dynamic.main set_order now spa_web start_url max_depth)
       = Some s'
       ∧ sitemap s' = r :: rest ∧ r_url r = start_url ∧ r_depth r = 0).
Proof.
  intros Hpre Hdepth Hstatic Hspa.
  assert (skip (base_url_of start_url) start_url 0 max_depth empty_session = false)
    as Hgo.
  { rewrite skip_empty, Hpre. simpl. lia. }
  split.
  - destruct (result_session _ (static_crawl_total set_order urljoin static_web
                (base_url_of start_url) start_url 0 max_depth empty_session))
      as [s' Hs'].
    exists s'. unfold Static.main. rewrite Hs'.
    unfold enough_fuel in Hs'. simpl in Hs'. rewrite Hgo, Hstatic in Hs'.
    apply finally_close_session in Hs'.
    destruct (Static.loaded _) as [e|[info [e|doc]]]; simpl in Hs'.
    + injection Hs' as <-. by eexists _, _.
    + injection Hs' as <-. by eexists _, _.
    + destruct (for_each_link _ _ _ _ _) as [|s1|e s1] eqn:Hloop;
        simpl in Hs'; [done| |]; injection Hs' as <-.
      * assert (session_of (for_each_link
                  (λ link s0, Static.crawl set_order urljoin static_web
                     (Z.to_nat (max_depth - 0 + 1)) (base_url_of start_url)
                     link (0 + 1) max_depth s0)
                  (base_url_of start_url) start_url
                  (Static.extract_links_comprehensive set_order urljoin doc
                     (base_url_of start_url))
                  (append_record (Static.success_record start_url info 0)
                     (begin_visit start_url empty_session))) = Some s1) as Hs1
          by (by rewrite Hloop).
        apply static_loop_grows in Hs1 as (_ & [k Hk] & _). simpl in Hk.
        by eexists _, _.
      * assert (session_of (for_each_link
                  (λ link s0, Static.crawl set_order urljoin static_web
                     (Z.to_nat (max_depth - 0 + 1)) (base_url_of start_url)
                     link (0 + 1) max_depth s0)
                  (base_url_of start_url) start_url
                  (Static.extract_links_comprehensive set_order urljoin doc
                     (base_url_of start_url))
                  (append_record (Static.success_record start_url info 0)
                     (begin_visit start_url empty_session))) = Some s1) as Hs1
          by (by rewrite Hloop).
        apply static_loop_grows in Hs1 as (_ & [k Hk] & _). simpl in Hk.
        simpl. rewrite Hk. by eexists _, _.
  - destruct (result_session _ (spa_crawl_total set_order now spa_web
                (base_url_of start_url) start_url 0 max_depth empty_session))
      as [s' Hs'].
    exists s'. unfold Dynamic.main. rewrite Hs'.
    unfold enough_fuel in Hs'. simpl in Hs'. rewrite Hgo, Hspa in Hs'.
    apply finally_close_session in Hs'.
    destruct (negb _); simpl in Hs'; [injection Hs' as <-; by eexists _, _|].
    destruct (Dynamic.loaded _) as [e|[info [e|doc]]]; simpl in Hs'.
    + injection Hs' as <-. by eexists _, _.
    + injection Hs' as <-. by eexists _, _.
    + destruct (for_each_link _ _ _ _ _) as [|s1|e s1] eqn:Hloop;
        simpl in Hs'; [done| |]; injection Hs' as <-.
      * apply (f_equal session_of) in Hloop. simpl in Hloop.
        apply spa_loop_grows in Hloop as (_ & [k Hk] & _). simpl in Hk.
        by eexists _, _.
      * apply (f_equal session_of) in Hloop. simpl in Hloop.
        apply spa_loop_grows in Hloop as (_ & [k Hk] & _). simpl in Hk.
        simpl. rewrite Hk. by eexists _, _.
Qed.

(** X4. When the depth bound is negative, or the start URL does not start
    with the base URL computed from it (a scheme written in upper case is
    enough, since [urlparse] lowers it), both [main] functions visit
    nothing: they return with the empty session. *)
Theorem nothing_crawled start_url max_depth :
  max_depth < 0 ∨ startswith start_url (base_url_of start_url) = false →
  Static.main set_order urljoin static_web start_url max_depth
  = Returned empty_session
  ∧ Dynamic.main set_order now spa_web start_url max_depth
    = Returned empty_session.
Proof.
  intros Hskip.
  assert (skip (base_url_of start_url) start_url 0 max_depth empty_session = true)
    as Hstop.
  { rewrite skip_empty. destruct Hskip as [Hneg| ->]; [|done].
    apply orb_true_iff. right. lia. }
  unfold Static.main, Dynamic.main, enough_fuel. simpl. by rewrite Hstop.
Qed.

End RunStart.

(** X3 on the example sites. *)
Lemma first_record_is_start_witness :
  startswith "https://example.com/" (base_url_of "https://example.com/") = true
  ∧ 0 ≤ 1
  ∧ Static.new_page_error (example_static_site 0 "https://example.com/") = None
  ∧ Dynamic.new_page_error (example_spa_site 0 "https://example.com/") = None
  ∧ (∃ s' r rest,
       session_of (Static.main example_order example_urljoin example_static_site
                     "https://example.com/" 1) = Some s'
       ∧ sitemap s' = r :: rest ∧ r_url r = "https://example.com/"
       ∧ r_depth r = 0)
  ∧ (∃ s' r rest,
       session_of (Dynamic.main example_order example_now example_spa_site
                     "https://example.com/" 1) = Some s'
       ∧ sitemap s' = r :: rest ∧ r_url r = "https://example.com/"
       ∧ r_depth r = 0).
Proof.
  assert (0 ≤ 1) as Hdepth by lia.
  split; [reflexivity|]. split; [exact Hdepth|].
  split; [reflexivity|]. split; [reflexivity|].
  exact (first_record_is_start example_order example_urljoin example_now
           example_static_site example_spa_site "https://example.com/" 1
           eq_refl Hdepth eq_refl eq_refl).
Defined.

(** X4 on a start URL whose scheme is in upper case. *)
Lemma nothing_crawled_witness :
  (2 < 0 ∨ startswith "HTTPS://example.com/" (base_url_of "HTTPS://example.com/")
           = false)
  ∧ Static.main example_order example_urljoin example_static_site
      "HTTPS://example.com/" 2 = Returned empty_session
  ∧ Dynamic.main example_order example_now example_spa_site
      "HTTPS://example.com/" 2 = Returned empty_session.
Proof.
  assert (2 < 0 ∨ startswith "HTTPS://example.com/"
                    (base_url_of "HTTPS://example.com/") = false) as Hskip
    by (right; reflexivity).
  split; [exact Hskip|].
  exact (nothing_crawled example_order example_urljoin example_now
           example_static_site example_spa_site "HTTPS://example.com/" 2 Hskip).
Defined.

(** ** More on the links of the SPA-tuned variant *)

Lemma keep_absolute_startswith base_url link :
  Dynamic.keep_absolute base_url link = true → startswith link base_url = true.
Proof.
  unfold Dynamic.keep_absolute. intros H.
  by repeat (apply andb_true_iff in H as [H _]).
Qed.

Lemma potential_url_startswith base_url m u :
  Dynamic.potential_url base_url m = Some u → startswith u base_url = true.
Proof.
  unfold Dynamic.potential_url.
  destruct (negb _ && negb _); [|done].
  destruct (startswith _ base_url) eqn:E; [|done]. by intros [= <-].
Qed.

(** X5. Every link that [extract_spa_links] returns starts with the base
    URL, whatever the page holds and whatever the base URL is. *)
Theorem spa_links_in_scope set_order doc base_url link :
  set_order_spec set_order →
  link ∈ Dynamic.extract_spa_links set_order doc base_url →
  startswith link base_url = true.
Proof.
  intros Horder Hlink. unfold Dynamic.extract_spa_links in Hlink.
  apply (proj1 (proj2 (Horder _) link)) in Hlink.
  apply elem_of_app in Hlink as [Hl|Hl].
  - unfold Dynamic.harvested in Hl.
    apply js_unique_elem, list_elem_of_filter in Hl as [Hkeep _].
    apply keep_absolute_startswith. by apply Is_true_true.
  - unfold Dynamic.page_source_links in Hl.
    destruct (Dynamic.content doc) as [page_content|]; [|by apply elem_of_nil in Hl].
    apply list_elem_of_In, in_flat_map in Hl as (pattern & _ & Hin).
    apply list_elem_of_In, list_elem_of_omap in Hin as (m & _ & Hpot).
    by eapply potential_url_startswith.
Qed.

(** X5 on the example page. *)
Lemma spa_links_in_scope_witness :
  set_order_spec example_order
  ∧ "https://example.com/blog/first-post"
    ∈ Dynamic.extract_spa_links example_order example_spa_document
        "https://example.com"
  ∧ startswith "https://example.com/blog/first-post" "https://example.com" = true.
Proof.
  assert ("https://example.com/blog/first-post"
          ∈ Dynamic.extract_spa_links example_order example_spa_document
              "https://example.com") as Hin.
  { apply list_elem_of_In. vm_compute. tauto. }
  split; [exact example_order_spec|]. split; [exact Hin|].
  exact (spa_links_in_scope example_order example_spa_document
           "https://example.com" "https://example.com/blog/first-post"
           example_order_spec Hin).
Defined.

Lemma string_app_assoc (a b c : string) : (a +:+ b) +:+ c = a +:+ (b +:+ c).
Proof.
  induction a as [|x a IH]; [done|].
  change (String x ((a +:+ b) +:+ c) = String x (a +:+ (b +:+ c))).
  by rewrite IH.
Qed.

Lemma replace_double_slash_other c t :
  Ascii.eqb c "/" = false →
  replace_double_slash (String c t) = String c (replace_double_slash t).
Proof. intros Hc. destruct t as [|d t]; simpl; [done|]. by rewrite Hc. Qed.

Lemma replace_double_slash_app p t :
  has_char "/" p = false →
  replace_double_slash (p +:+ t) = p +:+ replace_double_slash t.
Proof.
  induction p as [|c p IH]; [done|]. cbn [has_char].
  intros [Hc Hp]%orb_false_elim.
  change (String c p +:+ t) with (String c (p +:+ t)).
  change (String c p +:+ replace_double_slash t)
    with (String c (p +:+ replace_double_slash t)).
  rewrite replace_double_slash_other by by rewrite Ascii.eqb_sym.
  by rewrite IH.
Qed.

Lemma startswith_app p a b : startswith (p +:+ a) (p +:+ b) = startswith a b.
Proof.
  induction p as [|c p IH]; [done|].
  change (startswith (String c (p +:+ a)) (String c (p +:+ b)) = startswith a b).
  cbn [startswith]. by rewrite Ascii.eqb_refl, IH.
Qed.

Lemma scheme_char_lower_no_slash c :
  scheme_char c = true → Ascii.eqb "/" (ascii_lower c) = false.
Proof.
  destruct c as [[] [] [] [] [] [] [] []]; vm_compute; intros; done.
Qed.

Lemma lower_no_slash s :
  all_chars scheme_char s = true → has_char "/" (lower s) = false.
Proof.
  induction s as [|c s IH]; [done|]. cbn [all_chars lower has_char].
  intros [Hc Hs]%andb_true_iff.
  by rewrite scheme_char_lower_no_slash, IH.
Qed.

Lemma urlparse_scheme_no_slash url : has_char "/" (urlparse_scheme url) = false.
Proof.
  unfold urlparse_scheme, split_scheme.
  destruct (before_char ":" url) as [|c head]; [done|].
  destruct (has_char ":" url && ascii_alpha c
            && all_chars scheme_char (String c head)) eqn:E; [|done].
  apply andb_true_iff in E as [_ E]. by apply lower_no_slash.
Qed.

Lemma before_delimiter_head s c r :
  before_delimiter s = String c r → Ascii.eqb "/" c = false.
Proof.
  destruct s as [|d s]; [done|]. cbn [before_delimiter].
  destruct (Ascii.eqb d "/" || Ascii.eqb d "?" || Ascii.eqb d "#") eqn:E; [done|].
  intros [= <- _]. apply orb_false_elim in E as [E _].
  apply orb_false_elim in E as [E _]. by rewrite Ascii.eqb_sym.
Qed.

Lemma urlparse_netloc_head url c r :
  urlparse_netloc url = String c r → Ascii.eqb "/" c = false.
Proof.
  unfold urlparse_netloc. destruct (startswith _ "//"); [|done].
  apply before_delimiter_head.
Qed.

Lemma potential_url_none start_url m :
  urlparse_netloc start_url ≠ EmptyString →
  Dynamic.potential_url (base_url_of start_url) m = None.
Proof.
  intros Hnetloc. unfold Dynamic.potential_url.
  destruct (negb _ && negb _); [|done].
  destruct (urlparse_netloc start_url) as [|c r] eqn:E; [done|].
  pose proof (urlparse_netloc_head _ _ _ E) as Hc.
  assert (startswith
            (replace_double_slash (base_url_of start_url +:+ "/" +:+ m))
            (base_url_of start_url) = false) as ->; [|done].
  unfold base_url_of. rewrite E.
  set (scheme := urlparse_scheme start_url).
  assert ((scheme +:+ "://" +:+ String c r) +:+ "/" +:+ m
          = (scheme +:+ ":") +:+ String "/" (String "/" (String c (r +:+ "/" +:+ m))))
    as ->.
  { by rewrite !string_app_assoc. }
  assert (scheme +:+ "://" +:+ String c r
          = (scheme +:+ ":") +:+ String "/" (String "/" (String c r))) as ->.
  { by rewrite !string_app_assoc. }
  rewrite replace_double_slash_app.
  - rewrite startswith_app.
    change (replace_double_slash (String "/" (String "/" (String c (r +:+ "/" +:+ m)))))
      with (String "/" (replace_double_slash (String c (r +:+ "/" +:+ m)))).
    rewrite replace_double_slash_other by by rewrite Ascii.eqb_sym.
    cbn [startswith]. rewrite Hc. by rewrite andb_false_r.
  - rewrite has_char_app. unfold scheme. by rewrite urlparse_scheme_no_slash.
Qed.

Lemma omap_none {A B} (f : A → option B) (l : list A) :
  (∀ x, f x = None) → omap f l = [].
Proof. intros Hf. induction l as [|x l IH]; simpl; [done|]. by rewrite Hf. Qed.

(** X6. For a start URL that has a network location (as every [http] URL
    has), the pass of [extract_spa_links] over the page source adds no
    link: replacing [//] by [/] breaks the [://] of the URL it builds, which
    then never starts with the base URL.  The links returned are the ones
    that the evaluated script harvested. *)
Theorem page_source_pass_adds_nothing set_order doc start_url :
  urlparse_netloc start_url ≠ EmptyString →
  Dynamic.page_source_links doc (base_url_of start_url) = []
  ∧ Dynamic.extract_spa_links set_order doc (base_url_of start_url)
    = set_order (Dynamic.harvested doc (base_url_of start_url)).
Proof.
  intros Hnetloc.
  assert (Dynamic.page_source_links doc (base_url_of start_url) = []) as Hnone.
  { unfold Dynamic.page_source_links.
    destruct (Dynamic.content doc) as [page_content|]; [|done].
    unfold Dynamic.route_patterns. cbn [flat_map].
    rewrite !omap_none by (intros; by apply potential_url_none). done. }
  split; [done|].
  unfold Dynamic.extract_spa_links. by rewrite Hnone, app_nil_r.
Qed.

(** X6 on the example page, whose source holds a quoted path. *)
Lemma page_source_pass_adds_nothing_witness :
  urlparse_netloc "https://example.com/" ≠ EmptyString
  ∧ Dynamic.page_source_links example_spa_document
      (base_url_of "https://example.com/") = []
  ∧ Dynamic.findall (Dynamic.py_route_match EmptyString false) 0
      "<a href='/about'>About</a>" = ["about"].
Proof.
  assert (urlparse_netloc "https://example.com/" ≠ EmptyString) as Hnetloc
    by (vm_compute; discriminate).
  split; [exact Hnetloc|]. split; [|reflexivity].
  exact (proj1 (page_source_pass_adds_nothing example_order example_spa_document
                  "https://example.com/" Hnetloc)).
Defined.

(** ** Waiting for the link count to settle *)

Lemma in_time_spec (max_wait elapsed : Q) :
  negb (Qle_bool max_wait elapsed) = true ↔ (elapsed < max_wait)%Q.
Proof.
  rewrite negb_true_iff. split.
  - intros H. apply Qnot_le_lt. intros Hle. apply Qle_bool_iff in Hle. congruence.
  - intros H. destruct (Qle_bool max_wait elapsed) eqn:E; [|done].
    apply Qle_bool_iff in E. by apply Qlt_not_le in H.
Qed.

Section Waiting.

Variable clock : nat → Q.
Variable link_count : nat → string + nat.
Variable max_wait : Q.

Lemma wait_loop_stable fuel start_time i previous stable n :
  (stable ≤ 2)%nat → (stable ≤ i)%nat →
  (∀ j, (i - stable ≤ j < i)%nat → link_count j = inr previous) →
  ((stable < i)%nat → link_count (i - stable - 1)%nat = inr previous) →
  (stable = i → previous = 0%nat) →
  wait_loop fuel clock link_count max_wait start_time i previous stable
  = Stable n →
  ∃ c, (3 ≤ n)%nat ∧ (i < n)%nat
       ∧ (∀ j, (n - 3 ≤ j < n)%nat → link_count j = inr c)
       ∧ (n = 3%nat ∧ c = 0%nat ∨ (4 ≤ n)%nat ∧ link_count (n - 4)%nat = inr c)
       ∧ ∀ j, (i ≤ j < n)%nat → (clock (S j) - start_time < max_wait)%Q.
Proof.
  revert i previous stable.
  induction fuel as [|fuel IH]; intros i previous stable; [done|].
  intros Hs2 Hsi Hlast Hbefore Hzero. cbn [wait_loop].
  destruct (negb (Qle_bool max_wait (clock (S i) - start_time))) eqn:Htime; [|done].
  apply in_time_spec in Htime.
  destruct (link_count i) as [e|current] eqn:Hcount; [done|].
  destruct (current =? previous)%nat eqn:Hsame.
  - apply Nat.eqb_eq in Hsame as ->.
    destruct (3 <=? S stable)%nat eqn:Hthree.
    + apply Nat.leb_le in Hthree. intros [= <-].
      assert (stable = 2%nat) as -> by lia.
      exists previous. split; [lia|]. split; [lia|]. split; [|split].
      * intros j Hj. destruct (decide (j = i)) as [->|Hne]; [done|].
        apply Hlast. lia.
      * destruct (decide (i = 2%nat)) as [->|Hne].
        -- left. split; [done|]. by apply Hzero.
        -- right. split; [lia|].
           replace (S i - 4)%nat with (i - 2 - 1)%nat by lia. apply Hbefore. lia.
      * intros j Hj. by replace j with i by lia.
    + apply Nat.leb_gt in Hthree. intros Hres.
      apply IH in Hres as (c & H3 & Hi & Hc & Hq & Ht); [| lia | lia | | | ].
      * exists c. split; [done|]. split; [lia|]. split; [done|]. split; [done|].
        intros j Hj. destruct (decide (j = i)) as [->|Hne]; [done|].
        apply Ht. lia.
      * intros j Hj. destruct (decide (j = i)) as [->|Hne]; [done|].
        apply Hlast. lia.
      * intros Hlt. replace (S i - S stable - 1)%nat with (i - stable - 1)%nat by lia.
        apply Hbefore. lia.
      * intros Heq. apply Hzero. lia.
  - intros Hres.
    apply IH in Hres as (c & H3 & Hi & Hc & Hq & Ht); [| lia | lia | | | ].
    + exists c. split; [done|]. split; [lia|]. split; [done|]. split; [done|].
      intros j Hj. destruct (decide (j = i)) as [->|Hne]; [done|].
      apply Ht. lia.
    + intros j Hj. lia.
    + intros _. by replace (S i - 0 - 1)%nat with i by lia.
    + intros Heq. lia.
Qed.

(** X7. [wait_for_dynamic_content] judges a page settled only after three
    samples in a row that repeat the count before them, the count before
    the first sample being 0: the last three samples are one number, which
    is 0 when they are the only ones and is the fourth last sample
    otherwise; and each of the samples was taken within [max_wait] of the
    start. *)
Theorem settled_after_three_repeats fuel n :
  wait_for_dynamic_content fuel clock link_count max_wait = Stable n →
  ∃ c, (3 ≤ n)%nat
       ∧ (∀ j, (n - 3 ≤ j < n)%nat → link_count j = inr c)
       ∧ (n = 3%nat ∧ c = 0%nat ∨ (4 ≤ n)%nat ∧ link_count (n - 4)%nat = inr c)
       ∧ ∀ j, (j < n)%nat → (clock (S j) - clock 0%nat < max_wait)%Q.
Proof.
  unfold wait_for_dynamic_content. intros Hres.
  apply wait_loop_stable in Hres as (c & H3 & _ & Hc & Hq & Ht);
    [| lia | lia | intros; lia | intros; lia | done].
  exists c. split; [done|]. split; [done|]. split; [done|].
  intros j Hj. apply Ht. lia.
Qed.

Lemma wait_loop_bounded fuel start_time i previous stable k :
  (i ≤ k)%nat → (k - i < fuel)%nat →
  (max_wait <= clock (S k) - start_time)%Q →
  match wait_loop fuel clock link_count max_wait start_time i previous stable with
  | Stable n => (n ≤ k)%nat
  | WaitedOut n => (n ≤ k)%nat
  | EvaluateRaised _ n => (n < k)%nat
  | StillWaiting => False
  end.
Proof.
  revert i previous stable.
  induction fuel as [|fuel IH]; intros i previous stable Hik Hfuel Hlate; [lia|].
  cbn [wait_loop].
  destruct (negb (Qle_bool max_wait (clock (S i) - start_time))) eqn:Htime; [|done].
  apply in_time_spec in Htime.
  assert (i < k)%nat as Hlt.
  { destruct (decide (i = k)) as [->|Hne]; [|lia].
    by apply Qlt_not_le in Htime. }
  destruct (link_count i) as [e|current]; [done|].
  destruct (current =? previous)%nat.
  - destruct (3 <=? S stable)%nat; [lia|]. apply IH; [lia|lia|done].
  - apply IH; [lia|lia|done].
Qed.

(** X9. The wait is bounded by the clock: if the k-th reading of the clock
    inside the loop is [max_wait] or more after the start, the function has
    ended by then, having taken at most k samples of the link count. *)
Theorem wait_is_bounded fuel k :
  (k < fuel)%nat →
  (max_wait <= clock (S k) - clock 0%nat)%Q →
  match wait_for_dynamic_content fuel clock link_count max_wait with
  | Stable n => (n ≤ k)%nat
  | WaitedOut n => (n ≤ k)%nat
  | EvaluateRaised _ n => (n < k)%nat
  | StillWaiting => False
  end.
Proof.
  intros Hfuel Hlate. unfold wait_for_dynamic_content.
  apply wait_loop_bounded; [lia|lia|done].
Qed.

(** X8. A page whose number of anchors does not change is judged settled
    after three samples when that number is 0 and after four otherwise,
    when the clock allows that many. *)
Theorem constant_page_settles fuel c :
  (4 ≤ fuel)%nat →
  (∀ j, link_count j = inr c) →
  (∀ j, (j ≤ 3)%nat → (clock (S j) - clock 0%nat < max_wait)%Q) →
  wait_for_dynamic_content fuel clock link_count max_wait
  = Stable (if (c =? 0)%nat then 3%nat else 4%nat).
Proof.
  intros Hfuel Hcount Htime.
  assert (∀ j, (j ≤ 3)%nat →
               negb (Qle_bool max_wait (clock (S j) - clock 0%nat)) = true) as Hin.
  { intros j Hj. by apply in_time_spec, Htime. }
  destruct fuel as [|[|[|[|fuel]]]]; try lia.
  unfold wait_for_dynamic_content. cbn [wait_loop].
  rewrite !Hcount, !Hin by lia.
  destruct (c =? 0)%nat eqn:Hc.
  - done.
  - rewrite Nat.eqb_refl. done.
Qed.

End Waiting.

(** X7 on a page whose anchors appear in two steps: it is judged settled
    at the sixth sample. *)
Lemma settled_after_three_repeats_witness :
  wait_for_dynamic_content 10 example_clock loading_page 30 = Stable 6
  ∧ ∃ c, (3 ≤ 6)%nat
         ∧ (∀ j, (6 - 3 ≤ j < 6)%nat → loading_page j = inr c)
         ∧ (6%nat = 3%nat ∧ c = 0%nat
            ∨ (4 ≤ 6)%nat ∧ loading_page (6 - 4)%nat = inr c)
         ∧ ∀ j, (j < 6)%nat → (example_clock (S j) - example_clock 0 < 30)%Q.
Proof.
  assert (wait_for_dynamic_content 10 example_clock loading_page 30 = Stable 6)
    as Hrun by (by vm_compute).
  split; [exact Hrun|].
  exact (settled_after_three_repeats example_clock loading_page 30 10 6 Hrun).
Defined.

(** X8 on a page with seven anchors from the start. *)
Lemma constant_page_settles_witness :
  (4 ≤ 10)%nat
  ∧ (∀ j, steady_page 7 j = inr 7%nat)
  ∧ (∀ j, (j ≤ 3)%nat → (example_clock (S j) - example_clock 0 < 30)%Q)
  ∧ wait_for_dynamic_content 10 example_clock (steady_page 7) 30 = Stable 4
  ∧ wait_for_dynamic_content 10 example_clock (steady_page 0) 30 = Stable 3.
Proof.
  assert (4 ≤ 10)%nat as Hfuel by lia.
  assert (∀ j, (j ≤ 3)%nat → (example_clock (S j) - example_clock 0 < 30)%Q)
    as Htime.
  { intros j Hj. destruct j as [|[|[|[|j]]]]; [by vm_compute..|lia]. }
  split; [exact Hfuel|]. split; [done|]. split; [exact Htime|]. split.
  - exact (constant_page_settles example_clock (steady_page 7) 30 10 7 Hfuel
             (λ _, eq_refl) Htime).
  - exact (constant_page_settles example_clock (steady_page 0) 30 10 0 Hfuel
             (λ _, eq_refl) Htime).
Defined.

(** X9 on a page that never settles, with a wait of three seconds. *)
Lemma wait_is_bounded_witness :
  (3 < 10)%nat
  ∧ (3 <= example_clock 4 - example_clock 0)%Q
  ∧ wait_for_dynamic_content 10 example_clock (λ i, inr i) 3 = WaitedOut 2.
Proof.
  assert (3 < 10)%nat as Hfuel by lia.
  assert (3 <= example_clock 4 - example_clock 0)%Q as Hlate by (by vm_compute).
  split; [exact Hfuel|]. split; [exact Hlate|].
  pose proof (wait_is_bounded example_clock (λ i, inr i) 3 10 3 Hfuel Hlate) as H.
  destruct (wait_for_dynamic_content 10 example_clock (λ i, inr i) 3) eqn:E;
    by vm_compute in E.
Defined.

(** ** Navigating to a route *)

Lemma rstrip_slashes n : rstrip "/" (slashes n) = EmptyString.
Proof. induction n as [|n IH]; [done|]. cbn [slashes rstrip]. by rewrite IH. Qed.

Lemma rstrip_app_slashes s n : rstrip "/" (s +:+ slashes n) = rstrip "/" s.
Proof.
  induction s as [|c s IH]; [apply rstrip_slashes|].
  change (String c s +:+ slashes n) with (String c (s +:+ slashes n)).
  cbn [rstrip]. by rewrite IH.
Qed.

(** X10. [navigate_spa_route] makes no browser call exactly when the URL of
    the page and the target are the same text once their final slashes are
    removed; it then returns [True].  So a page that is at the target up to
    any number of final slashes, on either side, is not navigated again. *)
Theorem navigation_skipped_up_to_slashes nav url base n m :
  ((navigate_spa_route nav url).2 = []
   ↔ rstrip "/" (page_url nav) = rstrip "/" url)
  ∧ ((navigate_spa_route nav url).2 = [] → (navigate_spa_route nav url).1 = true)
  ∧ navigate_spa_route
      {| page_url := base +:+ slashes n; goto_error := goto_error nav;
         target_path := target_path nav; candidates := candidates nav |}
      (base +:+ slashes m)
    = (true, []).
Proof.
  split; [|split].
  - unfold navigate_spa_route.
    destruct (String.eqb _ _) eqn:E.
    + apply String.eqb_eq in E. done.
    + apply String.eqb_neq in E.
      destruct (goto_error nav); [|done].
      destruct (candidates nav) as [?|elements]; [done|].
      by destruct (existsb _ elements).
  - unfold navigate_spa_route.
    destruct (String.eqb _ _); [done|].
    destruct (goto_error nav); [|done].
    destruct (candidates nav) as [?|elements]; [done|].
    by destruct (existsb _ elements).
  - unfold navigate_spa_route. cbn [page_url].
    rewrite !rstrip_app_slashes. by rewrite String.eqb_refl.
Qed.

(** X11. [navigate_spa_route] returns [False] only after [page.goto] has
    raised and the fallback has run and clicked nothing: the script raised,
    or no element's first non-empty attribute among [href], [data-href] and
    [data-to] is the target path or the target URL. *)
Theorem navigation_fails_after_both_attempts nav url :
  (navigate_spa_route nav url).1 = false →
  (navigate_spa_route nav url).2 = [Goto; FindAndClick]
  ∧ is_Some (goto_error nav)
  ∧ rstrip "/" (page_url nav) ≠ rstrip "/" url
  ∧ ∀ elements, candidates nav = inr elements →
      Forall (λ el, clicks (target_path nav) url el = false) elements.
Proof.
  unfold navigate_spa_route.
  destruct (String.eqb _ _) eqn:E; [done|]. apply String.eqb_neq in E.
  destruct (goto_error nav) as [e|]; [|done].
  destruct (candidates nav) as [e'|elements] eqn:Hc.
  - intros _. split; [done|]. split; [by eexists|]. split; [done|]. by intros ? [=].
  - destruct (existsb _ elements) eqn:Hex; [done|].
    intros _. split; [done|]. split; [by eexists|]. split; [done|].
    intros ? [= <-]. apply Forall_forall. intros el Hel.
    destruct (clicks (target_path nav) url el) eqn:Hclick; [|done].
    assert (existsb (clicks (target_path nav) url) elements = true) as Hex'.
    { apply existsb_exists. exists el. split; [by apply list_elem_of_In|done]. }
    congruence.
Qed.

(** X11 on a call whose [page.goto] times out and whose page has no element
    for the target. *)
Lemma navigation_fails_after_both_attempts_witness :
  (navigate_spa_route stuck_navigation "https://a.test/about").1 = false
  ∧ (navigate_spa_route stuck_navigation "https://a.test/about").2
    = [Goto; FindAndClick]
  ∧ is_Some (goto_error stuck_navigation)
  ∧ rstrip "/" (page_url stuck_navigation) ≠ rstrip "/" "https://a.test/about"
  ∧ ∀ elements, candidates stuck_navigation = inr elements →
      Forall (λ el, clicks (target_path stuck_navigation) "https://a.test/about" el
                    = false) elements.
Proof.
  assert ((navigate_spa_route stuck_navigation "https://a.test/about").1 = false)
    as Hfalse by (by vm_compute).
  split; [exact Hfalse|].
  exact (navigation_fails_after_both_attempts stuck_navigation
           "https://a.test/about" Hfalse).
Defined.

(** ** The summary printed by [main] *)

Lemma successful_and_error_pages (l : list PageRecord) :
  (length (successful_pages l) + length (error_pages l) = length l)%nat.
Proof.
  unfold successful_pages, error_pages.
  induction l as [|p l IH]; [done|].
  rewrite !filter_cons. destruct (is_error p) eqn:E.
  - rewrite decide_False; [|done]. rewrite decide_True; [|done]. cbn [length]. lia.
  - rewrite decide_True; [|done]. rewrite decide_False; [|done]. cbn [length]. lia.
Qed.

Lemma records_of_filter u failed s :
  records_of u failed s
  = length (filter (λ p, r_url p = u) (filter (λ p, is_error p = failed) (sitemap s))).
Proof.
  unfold records_of. induction (sitemap s) as [|p l IH]; [done|].
  rewrite !filter_cons.
  destruct (decide (is_error p = failed)) as [He|He].
  - rewrite filter_cons. destruct (decide (r_url p = u)) as [Hu|Hu].
    + rewrite decide_True; [|done]. cbn [length]. by rewrite IH.
    + rewrite decide_False; [done|]. by intros [? _].
  - rewrite decide_False; [done|]. by intros [_ ?].
Qed.

Lemma once_each_length (l : list PageRecord) (X : gset string) :
  (∀ u, (length (filter (λ p, r_url p = u) l) ≤ 1)%nat) →
  (∀ p, p ∈ l → r_url p ∈ X) →
  (length l ≤ size X)%nat.
Proof.
  intros Hone Hin.
  assert (NoDup (r_url <$> l)) as Hnodup.
  { clear Hin. induction l as [|p l IH]; [constructor|].
    cbn [fmap list_fmap]. constructor.
    - intros (q & Hq & Hql)%list_elem_of_fmap.
      specialize (Hone (r_url p)). rewrite filter_cons in Hone.
      rewrite decide_True in Hone; [|done]. cbn [length] in Hone.
      assert (q ∈ filter (λ p0, r_url p0 = r_url p) l) as Hqf
        by (by apply list_elem_of_filter).
      destruct (filter (λ p0, r_url p0 = r_url p) l); [by apply elem_of_nil in Hqf|].
      cbn [length] in Hone. lia.
    - apply IH. intros u. specialize (Hone u). rewrite filter_cons in Hone.
      destruct (decide (r_url p = u)); [cbn [length] in Hone; lia|done]. }
  rewrite <- (length_fmap r_url l).
  unfold size, set_size. cbn.
  apply submseteq_length, NoDup_submseteq; [done|].
  intros u (p & -> & Hp)%list_elem_of_fmap. apply elem_of_elements. by apply Hin.
Qed.

Lemma tallied_summary opens s' :
  tallied opens empty_session s' →
  (length (successful_pages (sitemap s')) ≤ size (visited s'))%nat
  ∧ (length (error_pages (sitemap s')) ≤ size (visited s'))%nat.
Proof.
  intros Ht.
  assert (∀ failed,
    (length (filter (λ p, is_error p = failed) (sitemap s')) ≤ size (visited s'))%nat)
    as H.
  { intros failed. apply once_each_length.
    - intros u. rewrite <- records_of_filter.
      destruct (tallied_from_empty _ _ u Ht) as (H0 & H1 & _).
      by destruct failed.
    - intros p Hp. destruct (decide (r_url p ∈ visited s')) as [|Hout]; [done|].
      destruct (tallied_from_empty _ _ (r_url p) Ht) as (_ & _ & Hnone & _).
      specialize (Hnone Hout).
      assert (records_of (r_url p) failed s' = 0%nat) as Hz
        by (destruct failed; tauto).
      rewrite records_of_filter in Hz.
      assert (p ∈ filter (λ p0, r_url p0 = r_url p)
                    (filter (λ p0, is_error p0 = failed) (sitemap s'))) as Hpf
        by (by apply list_elem_of_filter).
      destruct (filter (λ p0, r_url p0 = r_url p) _);
        [by apply elem_of_nil in Hpf|done]. }
  split; apply H.
Qed.

Section Summary.

Variable set_order : list string → list string.
Variable urljoin : string → string → option string.
Variable now : nat → Q.
Variable static_web : nat → string → Static.visit.
Variable spa_web : nat → string → Dynamic.visit.

(** X12. In the summary of both [main] functions, the numbers printed as
    Successful and Errors add up to the total, and neither is larger than
    the number of URLs in the visited set: the total is at most twice the
    number of pages visited. *)
Theorem summary_counts start_url max_depth :
  (∃ s', session_of (Static.main set_order urljoin static_web start_url max_depth)
         = Some s'
         ∧ (length (successful_pages (sitemap s')) + length (error_pages (sitemap s'))
            = length (sitemap s'))%nat
         ∧ (length (successful_pages (sitemap s')) ≤ size (visited s'))%nat
         ∧ (length (error_pages (sitemap s')) ≤ size (visited s'))%nat)
  ∧ (∃ s', session_of (Dynamic.main set_order now spa_web start_url max_depth)
           = Some s'
           ∧ (length (successful_pages (sitemap s')) + length (error_pages (sitemap s'))
              = length (sitemap s'))%nat
           ∧ (length (successful_pages (sitemap s')) ≤ size (visited s'))%nat
           ∧ (length (error_pages (sitemap s')) ≤ size (visited s'))%nat).
Proof.
  split.
  - destruct (static_main_tallied set_order urljoin static_web start_url max_depth)
      as (s' & Hs' & Ht).
    exists s'. split; [done|]. split; [apply successful_and_error_pages|].
    by eapply tallied_summary.
  - destruct (spa_main_tallied set_order now spa_web start_url max_depth)
      as (s' & Hs' & Ht).
    exists s'. split; [done|]. split; [apply successful_and_error_pages|].
    by eapply tallied_summary.
Qed.

End Summary.

(** X13. The listing at the end of [main] in [dynamic.py] shows at most ten
    records, the first successful ones in the order of the sitemap and no
    error record; with the number printed after it when there are more than
    ten, it accounts for every successful record.  The pages counted as
    having content are among the successful ones. *)
Theorem listing_accounts_for_successful (sitemap : list PageRecord) :
  listed_pages sitemap `prefix_of` successful_pages sitemap
  ∧ listed_pages sitemap `sublist_of` sitemap
  ∧ Forall (λ p, is_error p = false) (listed_pages sitemap)
  ∧ (length (listed_pages sitemap) ≤ 10)%nat
  ∧ (length (listed_pages sitemap) + default 0%nat (more_pages sitemap)
     = length (successful_pages sitemap))%nat
  ∧ (more_pages sitemap = None ↔ listed_pages sitemap = successful_pages sitemap)
  ∧ pages_with_content sitemap `sublist_of` successful_pages sitemap.
Proof.
  unfold listed_pages, more_pages, pages_with_content.
  split; [apply prefix_take|].
  split; [etrans; [apply sublist_take|apply sublist_filter]|].
  split.
  { apply Forall_forall. intros p Hp.
    apply (subseteq_take 10) in Hp. by apply list_elem_of_filter in Hp as [? _]. }
  split; [rewrite length_take; lia|].
  split.
  { rewrite length_take. destruct (10 <? _)%nat eqn:E; cbv [default from_option id].
    - apply Nat.ltb_lt in E. lia.
    - apply Nat.ltb_ge in E. lia. }
  split; [|apply sublist_filter].
  destruct (10 <? _)%nat eqn:E.
  - apply Nat.ltb_lt in E. split; [done|]. intros Heq.
    apply (f_equal length) in Heq. rewrite length_take in Heq. lia.
  - apply Nat.ltb_ge in E. split; [|done]. intros _. by apply take_ge.
Qed.
